(** * nqdc data extraction: corpus traversal, record assembly, table writing

    A shallow embedding of [nqdc/_data_extraction.py] and [nqdc/_text.py].

    - Paths are lists of components, the file system is an association list
      from path to node whose order is the order in which the operating
      system enumerates entries.
    - Effects (file system, open file handles, the log and the other actions
      a run performs) are threaded through a state-and-exception monad [M].
    - A Python generator is embedded as a traversal that receives the body of
      the consuming [for] loop as [yield], together with the locals that the
      loop carries: the body runs at the point where the generator yields.
      An exception of the body abandons the generator, which is closed as
      the exception unwinds the loop: a [finally] clause around the [yield]
      runs then, and nothing after it.
    - The modules [_utils], [_writers], [_coordinates] and [_metadata] are
      not part of this development; what is used of them is described where
      it is defined. The file system that is modelled has directories and
      files only, and no operation fails for lack of permission. *)

From Stdlib Require Import Strings.Ascii.
From stdpp Require Import gmap strings list sorting.

Open Scope string_scope.
Open Scope list_scope.

#[local] Set Warnings "-clear-no-such-hyp".

(** ** Paths (pathlib.PurePosixPath) *)

Module Path.

(** The components of a path, outermost first. *)
Definition t := list string.

(** [Path.name]: the final component, or the empty string. *)
Definition name (p : t) : string := default "" (last p).

(** [Path.parent]. *)
Definition parent (p : t) : t := removelast p.

(** [Path.joinpath] with one component. *)
Definition joinpath (p : t) (child : string) : t := p ++ [child].

(** Paths compare as the lists of their components, and components
    compare as strings, code point by code point. *)
Fixpoint leb (p q : t) : bool :=
  match p, q with
  | [], _ => true
  | _ :: _, [] => false
  | a :: p', b :: q' =>
      if decide (a = b) then leb p' q' else bool_decide (String.le a b)
  end.

Definition le (p q : t) : Prop := leb p q = true.

#[global] Instance le_dec : RelDecision le.
Proof. intros p q. unfold le. apply _. Defined.

End Path.

(** Python's [sorted] on a list of paths. *)
Definition sorted (l : list Path.t) : list Path.t := merge_sort Path.le l.

(** ** Data *)

(** A scalar of an extracted field: [None], a [str] or an [int]. *)
Inductive value :=
| VNone
| VStr (s : string)
| VInt (n : Z).

(** One row of a table: field name to value. *)
Abbreviation row := (gmap string value).

(** What an extractor returns: a mapping of fields (metadata, text) or a
    data frame of rows (coordinates). *)
Inductive extracted :=
| Fields (d : row)
| Table (rows : list row).

(** The Article Record: extractor name to extractor output. *)
Abbreviation ArticleRecord := (gmap string extracted).

(** An XML element with its tag, its text ([None] when it has none) and its
    children; a parsed document is its root element. *)
#[local] Unset Elimination Schemes.
Inductive Element :=
| Elem (tag : string) (text : option string) (children : list Element).
#[local] Set Elimination Schemes.

Definition tag (e : Element) : string := let 'Elem t _ _ := e in t.
Definition text (e : Element) : option string := let 'Elem _ x _ := e in x.
Definition children (e : Element) : list Element := let 'Elem _ _ c := e in c.

(** [ElementTree.find] with a bare tag name: the first child of the root
    that carries the tag. *)
Definition find (tree : Element) (name : string) : option Element :=
  snd <$> list_find (λ e, tag e = name) (children tree).

(** A JSON object whose members are integers. *)
Inductive json :=
| JObject (members : list (string * Z)).

(** ** File system *)

Inductive file_data :=
| XmlText (s : string)
| CsvTable (header : list string) (rows : list row)
| JsonText (j : json).

Inductive node :=
| NDir
| NFile (d : file_data).

(** Entries in the order in which the operating system enumerates them. *)
Definition FS := list (Path.t * node).

Fixpoint fs_lookup (fs : FS) (p : Path.t) : option node :=
  match fs with
  | [] => None
  | (q, n) :: fs' => if decide (q = p) then Some n else fs_lookup fs' p
  end.

(** Create or replace the entry at [p]; a new entry comes last. *)
Fixpoint fs_write (p : Path.t) (n : node) (fs : FS) : FS :=
  match fs with
  | [] => [(p, n)]
  | (q, m) :: fs' =>
      if decide (q = p) then (p, n) :: fs' else (q, m) :: fs_write p n fs'
  end.

Definition fs_is_dir (fs : FS) (p : Path.t) : bool :=
  match fs_lookup fs p with Some NDir => true | _ => false end.

(** [p] is an entry of directory [d]. *)
Definition is_child_of (d p : Path.t) : Prop := p ≠ [] ∧ Path.parent p = d.

#[global] Instance is_child_of_dec d p : Decision (is_child_of d p).
Proof. unfold is_child_of. apply _. Defined.

(** [Path.glob] with a pattern of one component: the entries of directory
    [d] whose name matches, in enumeration order. *)
Definition glob (fs : FS) (d : Path.t) (pattern : string → bool) : list Path.t :=
  if fs_is_dir fs d
  then filter (λ p, is_child_of d p ∧ pattern (Path.name p) = true) fs.*1
  else [].

(** The pattern ["*"]. *)
Definition pat_any (name : string) : bool := true.

Definition string_suffix (s1 s2 : string) : bool :=
  String.prefix (String.rev s1) (String.rev s2).

(** The pattern ["pmcid_*.xml"]. *)
Definition pat_pmcid_xml (name : string) : bool :=
  String.prefix "pmcid_" name && string_suffix ".xml" name
  && bool_decide (10 ≤ String.length name)%nat.

(** ** Effects *)

Inductive exn :=
| FileNotFoundError (p : Path.t)
| FileExistsError (p : Path.t)
| NotADirectoryError (p : Path.t)
| OSError (p : Path.t)
| ValueError
| TypeError
| AttributeError
| KeyError (k : string)
| ExtractorError (extractor : string).

Inductive result (A : Type) :=
| Ok (a : A)
| Raise (e : exn).
Arguments Ok {A} a.
Arguments Raise {A} e.

Inductive log_message :=
| FailedToParse (article_file : Path.t)
| Processed (subdir : string) (n_articles n_failures : nat)
| FailedToTransform
| Extracting (articles_dir output_dir : Path.t)
| DoneExtracting (output_dir : Path.t).

(** What a run does that can be observed from outside, in order. *)
Inductive event :=
| LogInfo (m : log_message)
| LogException (m : log_message)
| EvMkdir (p : Path.t)
| EvOpen (writer : string)
| EvWrite (writer : string) (all_data : ArticleRecord)
| EvWriteRaised (writer : string) (all_data : ArticleRecord)
| EvClose (writer : string)
| EvWriteText (p : Path.t) (j : json).

(** An open output file: the number of appends so far and the rows that
    are buffered. *)
Record handle := Handle { h_appends : nat; h_buffer : list row }.

Record World := MkWorld {
  w_fs : FS;
  w_open : gmap Path.t handle;
  w_trace : list event
}.

Definition M (A : Type) : Type := World → result A * World.

#[global] Instance M_ret : MRet M := λ A a w, (Ok a, w).

#[global] Instance M_bind : MBind M := λ A B k m w,
  match m w with
  | (Ok a, w') => k a w'
  | (Raise e, w') => (Raise e, w')
  end.

#[global] Instance M_fmap : FMap M := λ A B f m, a ← m; mret (f a).

Definition raise {A} (e : exn) : M A := λ w, (Raise e, w).

(** [try: body finally: cleanup]. The cleanup runs whether the body returns
    or raises; it sees what the body returned, if it did, and the exception
    of the body passes through once the cleanup has run. *)
Definition try_finally {A} (body : M A) (cleanup : option A → M unit) : M A := λ w,
  let '(r, w') := body w in
  let '(c, w'') := cleanup (match r with Ok a => Some a | Raise _ => None end) w' in
  match c with
  | Ok _ => (r, w'')
  | Raise e => (Raise e, w'')
  end.

Definition get_fs : M FS := λ w, (Ok (w_fs w), w).

Definition set_fs (fs : FS) : M unit := λ w,
  (Ok (), MkWorld fs (w_open w) (w_trace w)).

Definition get_open : M (gmap Path.t handle) := λ w, (Ok (w_open w), w).

Definition set_open (o : gmap Path.t handle) : M unit := λ w,
  (Ok (), MkWorld (w_fs w) o (w_trace w)).

Definition add_event (ev : event) (w : World) : World :=
  MkWorld (w_fs w) (w_open w) (w_trace w ++ [ev]).

Definition emit (ev : event) : M unit := λ w, (Ok (), add_event ev w).

Definition log_info (m : log_message) : M unit := emit (LogInfo m).
Definition log_exception (m : log_message) : M unit := emit (LogException m).

(** ** Collaborators that are not part of the traversal core *)

(** The XML parser, the stylesheet and the two extractors whose rules are
    kept outside this development, and the points at which the output
    files fail. *)
Record Env := {
  (** [etree.parse] on the content of a file; [None] when it raises. *)
  etree_parse : string → option Element;
  (** Applying the stylesheet [text_extraction.xsl]; [None] when it raises. *)
  text_stylesheet : Element → option Element;
  coordinate_fields : list string;
  coordinate_extract : Element → result extracted;
  metadata_fields : list string;
  metadata_extract : Element → result extracted;
  (** Opening the output file of this writer fails. *)
  open_fails : string → bool;
  (** The append of this record fails, given the writer and the number of
      its earlier appends. *)
  write_fails : string → nat → ArticleRecord → bool
}.

(** Modelled from the spec: [_utils.assert_exists], which is not among the
    sources; it fails when the path does not exist and has no other
    effect. *)
Definition assert_exists (p : Path.t) : M unit :=
  fs ← get_fs;
  match fs_lookup fs p with
  | Some _ => mret ()
  | None => raise (FileNotFoundError p)
  end.

(** [for x in l: body(x)] *)
Fixpoint for_each `{MBind T, MRet T} {A} (l : list A) (body : A → T unit) : T unit :=
  match l with
  | [] => mret ()
  | x :: l' => body x;; for_each l' body
  end.

(** ** Python's [int] on the text of an element *)

Definition is_py_space (c : Ascii.ascii) : bool :=
  let n := Ascii.nat_of_ascii c in
  bool_decide (9 ≤ n ≤ 13)%nat || bool_decide (28 ≤ n ≤ 32)%nat.

Fixpoint lstrip (s : string) : string :=
  match s with
  | String c s' => if is_py_space c then lstrip s' else s
  | EmptyString => EmptyString
  end.

Definition strip (s : string) : string :=
  String.rev (lstrip (String.rev (lstrip s))).

(** Decimal digits, where single underscores may separate digits. *)
Fixpoint int_digits (s : string) (acc : Z) (after_digit : bool) : option Z :=
  match s with
  | EmptyString => if after_digit then Some acc else None
  | String c s' =>
      match Ascii.is_nat c with
      | Some d => int_digits s' (10 * acc + Z.of_nat d)%Z true
      | None =>
          if after_digit && bool_decide (c = "_"%char)
          then int_digits s' acc false
          else None
      end
  end.

(** [int(s)] for a string of ASCII characters; [None] stands for
    [ValueError]. *)
Definition int_of_str (s : string) : option Z :=
  match strip s with
  | String "+" s' => int_digits s' 0 false
  | String "-" s' => Z.opp <$> int_digits s' 0 false
  | s' => int_digits s' 0 false
  end.

Definition py_int (v : value) : M value :=
  match v with
  | VNone => raise TypeError
  | VStr s =>
      match int_of_str s with
      | Some n => mret (VInt n)
      | None => raise ValueError
      end
  | VInt n => mret (VInt n)
  end.

Definition value_of_text (t : option string) : value :=
  match t with
  | Some s => VStr s
  | None => VNone
  end.

(** ** Extractors *)

(** [BaseExtractor]: a name, the declared fields and [extract]. *)
Record BaseExtractor := {
  name : string;
  fields : list string;
  extract : Element → M extracted
}.

Section extraction.
Context (env : Env).

(** *** _text.py *)

Definition TextExtractor_fields : list string :=
  ["pmcid"; "title"; "keywords"; "abstract"; "body"].

(** The loop over [self.fields] of [_extract_text_from_article]. *)
Fixpoint extract_parts (transformed : Element) (part_names : list string)
    (result : row) : M row :=
  match part_names with
  | [] => mret result
  | part_name :: rest =>
      match find transformed part_name with
      | None => raise AttributeError
      | Some elem =>
          extract_parts transformed rest
            (<[part_name := value_of_text (text elem)]> result)
      end
  end.

Definition _extract_text_from_article (article : Element) : M row :=
  let result : row := ∅ in
  match text_stylesheet env article with
  | None =>
      log_exception FailedToTransform;;
      mret result
  | Some transformed =>
      result ← extract_parts transformed TextExtractor_fields result;
      pmcid ← match result !! "pmcid" with
               | Some v => py_int v
               | None => raise (KeyError "pmcid")
               end;
      mret (<["pmcid" := pmcid]> result)
  end.

Definition TextExtractor : BaseExtractor := {|
  name := "text";
  fields := TextExtractor_fields;
  extract article := Fields <$> _extract_text_from_article article
|}.
End extraction.

(** ** _data_extraction.py: the article source and the record assembler *)

Section article_source.
Context (env : Env).

(** Modelled from the spec: the classes [CoordinateExtractor] and
    [MetadataExtractor], whose modules are not among the sources. Their
    names are the keys that the docstring of [extract_data] lists; their
    fields and their rules are those of [env]. *)
Definition CoordinateExtractor : BaseExtractor := {|
  name := "coordinates";
  fields := coordinate_fields env;
  extract article := λ w, (coordinate_extract env article, w)
|}.

Definition MetadataExtractor : BaseExtractor := {|
  name := "metadata";
  fields := metadata_fields env;
  extract article := λ w, (metadata_extract env article, w)
|}.

(** [etree.parse(str(article_file))]; [None] when it raises. *)
Definition parse_file (fs : FS) (article_file : Path.t) : option Element :=
  match fs_lookup fs article_file with
  | Some (NFile (XmlText s)) => etree_parse env s
  | _ => None
  end.

(** The body of the inner loop of [iter_articles] for one file, with the
    locals [n_articles] and [n_failures]; it ends with the new value of
    [n_failures]. The [finally] clause also runs when the consumer raises at
    the [yield]: the generator is closed as the exception unwinds the
    consumer's loop. *)
Definition visit_file {L} (subdir article_file : Path.t)
    (yield : Element → L → M L) (n_articles n_failures : nat) (s : L)
    : M (nat * L) :=
  fs ← get_fs;
  try_finally
    (match parse_file fs article_file with
     | None =>
         log_exception (FailedToParse article_file);;
         mret (S n_failures, s)
     | Some article =>
         s ← yield article s;
         mret (n_failures, s)
     end)
    (λ outcome,
       let n_failures := default n_failures (fst <$> outcome) in
       let n_articles := S n_articles in
       if bool_decide (n_articles mod 20 = 0)%nat
       then log_info (Processed (Path.name subdir) n_articles n_failures)
       else mret ()).

(** The inner loop of [iter_articles], over the files of one
    subdirectory. *)
Fixpoint iter_files {L} (subdir : Path.t) (files : list Path.t)
    (yield : Element → L → M L) (n_articles n_failures : nat) (s : L)
    : M (nat * nat * L) :=
  match files with
  | [] => mret (n_articles, n_failures, s)
  | article_file :: files' =>
      '(n_failures, s) ← visit_file subdir article_file yield n_articles n_failures s;
      iter_files subdir files' yield (S n_articles) n_failures s
  end.

(** The outer loop of [iter_articles]. *)
Fixpoint iter_subdirs {L} (subdirs : list Path.t)
    (yield : Element → L → M L) (n_articles n_failures : nat) (s : L)
    : M (nat * nat * L) :=
  match subdirs with
  | [] => mret (n_articles, n_failures, s)
  | subdir :: subdirs' =>
      fs ← get_fs;
      '(n_articles, n_failures, s) ←
        iter_files subdir (sorted (glob fs subdir pat_pmcid_xml))
          yield n_articles n_failures s;
      iter_subdirs subdirs' yield n_articles n_failures s
  end.

(** The body of [iter_articles]; it ends with the final values of
    [n_articles] and [n_failures]. *)
Definition iter_articles_locals {L} (articles_dir : Path.t)
    (yield : Element → L → M L) (s : L) : M (nat * nat * L) :=
  assert_exists articles_dir;;
  fs ← get_fs;
  iter_subdirs
    (sorted (filter (λ f, fs_is_dir fs f = true) (glob fs articles_dir pat_any)))
    yield 0%nat 0%nat s.

Definition iter_articles {L} (articles_dir : Path.t)
    (yield : Element → L → M L) (s : L) : M L :=
  '(_, _, s) ← iter_articles_locals articles_dir yield s;
  mret s.

(** [{extractor.name: extractor.extract(article) for extractor in ...}] *)
Fixpoint assemble (data_extractors : list BaseExtractor) (article : Element)
    (acc : ArticleRecord) : M ArticleRecord :=
  match data_extractors with
  | [] => mret acc
  | extractor :: rest =>
      data ← extract extractor article;
      assemble rest article (<[name extractor := data]> acc)
  end.

Definition extract_data {L} (articles_dir : Path.t)
    (articles_with_coords_only : bool)
    (yield : ArticleRecord → L → M L) (s : L) : M L :=
  assert_exists articles_dir;;
  let data_extractors :=
    [CoordinateExtractor; MetadataExtractor; TextExtractor env] in
  iter_articles articles_dir
    (λ article s,
       article_data ← assemble data_extractors article ∅;
       yield article_data s)
    s.
End article_source.

(** ** Table writers and the scope that closes them *)

(** A [CSVWriter]: the fields and name of its extractor and its file. *)
Record CSVWriter := {
  cw_fields : list string;
  cw_name : string;
  cw_output_file : Path.t
}.

Definition from_extractor (extractor : BaseExtractor) (output_dir : Path.t)
    : CSVWriter := {|
  cw_fields := fields extractor;
  cw_name := name extractor;
  cw_output_file := Path.joinpath output_dir (name extractor +:+ ".csv")
|}.

(** The rows that one extractor output contributes to its table. *)
Definition rows_of (data : extracted) : list row :=
  match data with
  | Fields d => [d]
  | Table rows => rows
  end.

(** Rows reach the file when the buffer is flushed. *)
Definition flush (file : Path.t) (header : list string) (buffer : list row)
    (fs : FS) : FS :=
  match fs_lookup fs file with
  | Some (NFile (CsvTable hd rows)) =>
      fs_write file (NFile (CsvTable hd (rows ++ buffer))) fs
  | _ => fs_write file (NFile (CsvTable header buffer)) fs
  end.

Section writers.
Context (env : Env).

(** Modelled from the spec: [CSVWriter.__enter__], whose module is not
    among the sources. Opening creates or truncates the destination and
    writes the column headers once. *)
Definition writer_enter (writer : CSVWriter) : M unit :=
  let file := cw_output_file writer in
  fs ← get_fs;
  if open_fails env (cw_name writer) || fs_is_dir fs file
  then raise (OSError file)
  else
    set_fs (fs_write file (NFile (CsvTable (cw_fields writer) [])) fs);;
    opened ← get_open;
    set_open (<[file := Handle 0 []]> opened);;
    emit (EvOpen (cw_name writer)).

(** Modelled from the spec: [CSVWriter.write]. While open, it takes the
    part of the record that its extractor produced and appends it; the
    appends are buffered. *)
Definition writer_write (writer : CSVWriter) (all_data : ArticleRecord)
    : M unit :=
  let file := cw_output_file writer in
  emit (EvWrite (cw_name writer) all_data);;
  opened ← get_open;
  match opened !! file with
  | None => raise ValueError
  | Some h =>
      match all_data !! cw_name writer with
      | None => raise (KeyError (cw_name writer))
      | Some data =>
          if write_fails env (cw_name writer) (h_appends h) all_data
          then
            emit (EvWriteRaised (cw_name writer) all_data);;
            raise (OSError file)
          else
            set_open
              (<[file := Handle (S (h_appends h)) (h_buffer h ++ rows_of data)]>
                 opened)
      end
  end.

(** Modelled from the spec: [CSVWriter.__exit__]. Closing flushes the
    buffered appends; it does not raise and it does not suppress the
    exception that unwinds through it. *)
Definition writer_exit (writer : CSVWriter) (w : World) : World :=
  let file := cw_output_file writer in
  match w_open w !! file with
  | None => w
  | Some h =>
      MkWorld (flush file (cw_fields writer) (h_buffer h) (w_fs w))
              (delete file (w_open w))
              (w_trace w ++ [EvClose (cw_name writer)])
  end.
End writers.

(** *** contextlib.ExitStack *)

(** The exit callbacks registered so far, the last one first. The
    callbacks of this program neither raise nor suppress. *)
Definition ExitStack := list (World → World).

(** A computation inside [with ExitStack() as stack]: the stack survives an
    exception of the body. *)
Definition StackM (A : Type) : Type :=
  ExitStack → World → result A * ExitStack * World.

#[global] Instance StackM_ret : MRet StackM := λ A a stack w, (Ok a, stack, w).

#[global] Instance StackM_bind : MBind StackM := λ A B k m stack w,
  match m stack w with
  | (Ok a, stack', w') => k a stack' w'
  | (Raise e, stack', w') => (Raise e, stack', w')
  end.

(** A statement of the body that does not touch the stack. *)
Definition lift {A} (m : M A) : StackM A := λ stack w,
  let '(r, w') := m w in (r, stack, w').

(** [stack.enter_context(cm)]: the exit of [cm] is registered once its
    enter has returned. *)
Definition enter_context (enter : M unit) (exit : World → World)
    : StackM unit := λ stack w,
  match enter w with
  | (Ok _, w') => (Ok (), exit :: stack, w')
  | (Raise e, w') => (Raise e, stack, w')
  end.

(** [ExitStack.__exit__]: every registered callback runs, last in first
    out. *)
Definition close_all (stack : ExitStack) (w : World) : World :=
  foldl (λ w exit, exit w) w stack.

(** [with ExitStack() as stack: body]. The result of the body, an exception
    included, passes through once the callbacks have run. *)
Definition with_ExitStack {A} (body : StackM A) : M A := λ w,
  let '(r, stack, w') := body [] w in (r, close_all stack w').

(** ** _data_extraction.py: the batch orchestrator *)

(** [Path.with_name]. *)
Definition with_name (p : Path.t) (new_name : string) : M Path.t :=
  match p with
  | [] => raise ValueError
  | _ => mret (Path.joinpath (Path.parent p) new_name)
  end.

(** [Path.mkdir(exist_ok=True, parents=True)], going down from the root:
    [above] is the part that is known to be in place. *)
Fixpoint mkdir_from (above : Path.t) (below : list string) : M unit :=
  match below with
  | [] => mret ()
  | c :: below' =>
      let p := Path.joinpath above c in
      fs ← get_fs;
      match fs_lookup fs p with
      | Some NDir => mret ()
      | Some (NFile _) =>
          raise (if below' is [] then FileExistsError p else NotADirectoryError p)
      | None => set_fs (fs_write p NDir fs);; emit (EvMkdir p)
      end;;
      mkdir_from p below'
  end.

Definition mkdir (p : Path.t) : M unit := mkdir_from [] p.

(** [Path.write_text(json.dumps(j), "utf-8")] *)
Definition write_text (p : Path.t) (j : json) : M unit :=
  fs ← get_fs;
  if fs_is_dir fs p
  then raise (OSError p)
  else
    set_fs (fs_write p (NFile (JsonText j)) fs);;
    emit (EvWriteText p j).

Definition _get_output_dir (articles_dir : Path.t) (output_dir : option Path.t)
    (articles_with_coords_only : bool) : M Path.t :=
  output_dir ←
    match output_dir with
    | None =>
        let subset_name :=
          if articles_with_coords_only
          then "articlesWithCoords"
          else "allArticles" in
        with_name articles_dir ("subset_" +:+ subset_name +:+ "_extractedData")
    | Some output_dir => mret output_dir
    end;
  mkdir output_dir;;
  mret output_dir.

Section orchestrator.
Context (env : Env).

Definition all_writers (output_dir : Path.t) : list CSVWriter :=
  [from_extractor (MetadataExtractor env) output_dir;
   from_extractor (TextExtractor env) output_dir;
   from_extractor (CoordinateExtractor env) output_dir].

(** The body of the streaming loop, with the local [n_articles]. *)
Definition write_article (writers : list CSVWriter)
    (article_data : ArticleRecord) (n_articles : nat) : M nat :=
  let n_articles := S n_articles in
  for_each writers (λ writer, writer_write env writer article_data);;
  mret n_articles.

Definition extract_data_to_csv (articles_dir : Path.t)
    (output_dir : option Path.t) (articles_with_coords_only : bool)
    : M (Path.t * Z) :=
  assert_exists articles_dir;;
  output_dir ← _get_output_dir articles_dir output_dir articles_with_coords_only;
  log_info (Extracting articles_dir output_dir);;
  let all_writers := all_writers output_dir in
  n_articles ←
    with_ExitStack (
      for_each all_writers
        (λ writer,
           enter_context (writer_enter env writer) (writer_exit writer));;
      lift (extract_data env articles_dir articles_with_coords_only
              (write_article all_writers) 0%nat));
  write_text (Path.joinpath output_dir "info.json")
    (JObject [("n_articles", Z.of_nat n_articles)]);;
  log_info (DoneExtracting output_dir);;
  mret (output_dir, 0%Z).
End orchestrator.

(** * Vocabulary of the statements *)

(** ** The output directory and the records *)

(** The output directory of a run: the one that was supplied or else the
    sibling of the corpus root that is named after the subset. *)
Definition resolved_output_dir (articles_dir : Path.t)
    (output_dir : option Path.t) (articles_with_coords_only : bool)
    : option Path.t :=
  match output_dir with
  | Some d => Some d
  | None =>
      match articles_dir with
      | [] => None
      | _ =>
          Some (Path.joinpath (Path.parent articles_dir)
                  (if articles_with_coords_only
                   then "subset_articlesWithCoords_extractedData"
                   else "subset_allArticles_extractedData"))
      end
  end.

(** The names of the registered extractors. *)
Definition registered_names : gset string := {["coordinates"; "metadata"; "text"]}.

(** The list of extractors that [extract_data] registers. *)
Definition data_extractors (env : Env) : list BaseExtractor :=
  [CoordinateExtractor env; MetadataExtractor env; TextExtractor env].

(** A consumer that refuses a record whose keys are not the registered
    names. *)
Definition checking_keys {L} (yield : ArticleRecord → L → M L)
    (rec : ArticleRecord) (s : L) : M L :=
  if decide (dom rec = registered_names) then yield rec s
  else raise (KeyError "").

(** The consumer that collects what a generator yields. *)
Definition collect {A} (a : A) (acc : list A) : M (list A) := mret (acc ++ [a]).

(** ** The trace of a run *)

(** [w'] continues the trace of [w] with events that all satisfy [Pev]. *)
Definition trace_ext (Pev : event → Prop) (w w' : World) : Prop :=
  ∃ evs, w_trace w' = w_trace w ++ evs ∧ Forall Pev evs.

(** The calls of [write], in order: the writer and the record it was
    handed. *)
Definition write_calls (evs : list event) : list (string * ArticleRecord) :=
  omap (λ ev, match ev with EvWrite n r => Some (n, r) | _ => None end) evs.

(** One record handed to every registered writer in turn. *)
Definition fan_out (rec : ArticleRecord) : list (string * ArticleRecord) :=
  [("metadata", rec); ("text", rec); ("coordinates", rec)].

(** The records that were handed to one writer, in order. *)
Definition handed_to (writer : string) (evs : list event) : list ArticleRecord :=
  omap (λ call : string * ArticleRecord,
          if decide (call.1 = writer) then Some call.2 else None)
       (write_calls evs).

Definition is_log (ev : event) : Prop :=
  match ev with LogInfo _ | LogException _ => True | _ => False end.

Definition is_write_call (ev : event) : Prop :=
  match ev with EvWrite _ _ => True | _ => False end.

(** The events of the streaming loop. *)
Definition loop_event (ev : event) : Prop :=
  match ev with
  | LogInfo _ | LogException _ | EvWrite _ _ | EvWriteRaised _ _ => True
  | _ => False
  end.

(** The events around the streaming loop, up to the end of the scope. *)
Definition scope_event (ev : event) : Prop :=
  match ev with
  | LogInfo _ | EvMkdir _ | EvOpen _ | EvClose _ => True
  | _ => False
  end.

(** The files whose parse failure was logged, in order. *)
Definition parse_failures (evs : list event) : list Path.t :=
  omap (λ ev, match ev with
              | LogException (FailedToParse p) => Some p
              | _ => None
              end) evs.

(** ** The streaming loop and the whole run *)

(** The state of the streaming loop after [n_articles] records, from the
    world [w0] in which it started. *)
Definition streamed (w0 : World) (n_articles : nat) (w : World) : Prop :=
  w_fs w = w_fs w0 ∧ dom (w_open w) = dom (w_open w0) ∧
  ∃ recs evs,
    n_articles = length recs ∧
    Forall (λ rec, dom rec = registered_names) recs ∧
    w_trace w = w_trace w0 ++ evs ∧
    Forall (λ ev, is_log ev ∨ is_write_call ev) evs ∧
    write_calls evs = recs ≫= fan_out.

(** The state in which an exception leaves the streaming loop. *)
Definition interrupted (w0 : World) (e : exn) (w : World) : Prop :=
  w_fs w = w_fs w0 ∧ dom (w_open w) = dom (w_open w0) ∧ trace_ext loop_event w0 w.

(** What a run of [extract_data_to_csv] has done when it returns. *)
Definition completed (env : Env) (o : Path.t) (recs : list ArticleRecord)
    (w w' : World) (evs : list event) : Prop :=
  Forall (λ rec, dom rec = registered_names) recs ∧
  write_calls evs = recs ≫= fan_out ∧
  (∀ n rec, EvWriteRaised n rec ∉ evs) ∧
  (fs_lookup (w_fs w') (Path.joinpath o "info.json")
   = Some (NFile (JsonText (JObject [("n_articles", Z.of_nat (length recs))])))) ∧
  (∀ writer, writer ∈ all_writers env o → cw_output_file writer ∉ dom (w_open w')).

(** What a run has done when it raises. *)
Definition aborted (env : Env) (resolved : option Path.t)
    (w w' : World) (evs : list event) : Prop :=
  (∀ p j, EvWriteText p j ∉ evs) ∧
  (∀ o, resolved = Some o →
        (fs_lookup (w_fs w') (Path.joinpath o "info.json")
         = fs_lookup (w_fs w) (Path.joinpath o "info.json"))) ∧
  ((∃ n rec, EvWriteRaised n rec ∈ evs) →
   ∃ o, resolved = Some o ∧
        ∀ writer, writer ∈ all_writers env o →
                  (cw_output_file writer ∉ dom (w_open w')) ∧
                  EvClose (cw_name writer) ∈ evs).

(** ** The order of the traversal *)

(** The subdirectories of the corpus root in the order of line 82. *)
Definition shard_dirs (fs : FS) (articles_dir : Path.t) : list Path.t :=
  sorted (filter (λ f, fs_is_dir fs f = true) (glob fs articles_dir pat_any)).

(** The article files of a subdirectory in the order of line 83. *)
Definition shard_files (fs : FS) (subdir : Path.t) : list Path.t :=
  sorted (glob fs subdir pat_pmcid_xml).

(** The files that a traversal visits, in order. *)
Definition article_files (fs : FS) (articles_dir : Path.t) : list Path.t :=
  shard_dirs fs articles_dir ≫= shard_files fs.

(** Whether [etree.parse] raises on a file. *)
Definition unparsable (env : Env) (fs : FS) (p : Path.t) : Prop :=
  parse_file env fs p = None.

#[global] Instance unparsable_dec env fs p : Decision (unparsable env fs p).
Proof. unfold unparsable. destruct (parse_file env fs p); [right|left]; done. Defined.

(** What a complete traversal of [files] has done: the counters, the
    documents that were collected, the failures that were logged; nothing
    else has changed. *)
Definition traversed (env : Env) (files : list Path.t) (n f : nat) (acc : list Element)
    (w : World) (r : result (nat * nat * list Element)) (w' : World) : Prop :=
  r = Ok ((n + length files)%nat,
          (f + length (filter (unparsable env (w_fs w)) files))%nat,
          acc ++ omap (parse_file env (w_fs w)) files) ∧
  w_fs w' = w_fs w ∧ w_open w' = w_open w ∧
  ∃ evs, w_trace w' = w_trace w ++ evs ∧ Forall is_log evs ∧
         parse_failures evs = filter (unparsable env (w_fs w)) files.

(** The log entry after every twentieth file. *)
Definition progress (subdir : Path.t) (n f : nat) (w : World) : World :=
  if bool_decide (n mod 20 = 0)%nat
  then add_event (LogInfo (Processed (Path.name subdir) n f)) w
  else w.

(** ** Computations *)

(** [hoare P m Q E]: from a world in [P], [m] ends in [Q] when it returns
    and in [E] when it raises. *)
Definition hoare {A} (P : World → Prop) (m : M A)
    (Q : A → World → Prop) (E : exn → World → Prop) : Prop :=
  ∀ w, P w →
    match m w with
    | (Ok a, w') => Q a w'
    | (Raise e, w') => E e w'
    end.

(** A property of the world that the log does not affect. *)
Definition log_stable (J : World → Prop) : Prop :=
  ∀ w m, J w → J (add_event (LogInfo m) w) ∧ J (add_event (LogException m) w).

(** ** The output directory, the events and the records of a run *)

(** The directories that [mkdir(parents=True)] goes through below [above]. *)
Fixpoint prefixes_from (above : Path.t) (below : list string) : list Path.t :=
  match below with
  | [] => []
  | c :: below' =>
      Path.joinpath above c :: prefixes_from (Path.joinpath above c) below'
  end.

(** The files that a run writes in its output directory. *)
Definition output_files (o : Path.t) : list Path.t :=
  [Path.joinpath o "metadata.csv"; Path.joinpath o "text.csv";
   Path.joinpath o "coordinates.csv"; Path.joinpath o "info.json"].

(** The events of [mkdir]. *)
Definition is_mkdir (ev : event) : Prop :=
  match ev with EvMkdir _ => True | _ => False end.

(** The events outside the scope of the writers. *)
Definition outside_event (ev : event) : Prop :=
  match ev with
  | LogInfo _ | EvMkdir _ | EvWriteText _ _ => True
  | _ => False
  end.

(** The progress lines of a log: the name of the subdirectory, the number
    of files and the number of failures that each one reports. *)
Definition progress_lines (evs : list event) : list (string * nat * nat) :=
  omap (λ ev, match ev with
              | LogInfo (Processed subdir n f) => Some (subdir, n, f)
              | _ => None
              end) evs.

(** The progress lines of a traversal of [files] that starts with the
    counters [n] and [f]. *)
Fixpoint progress_of (env : Env) (fs : FS) (files : list Path.t) (n f : nat)
    : list (string * nat * nat) :=
  match files with
  | [] => []
  | file :: files =>
      let f := if decide (unparsable env fs file) then S f else f in
      (if decide (S n mod 20 = 0)%nat
       then [(Path.name (Path.parent file), S n, f)] else [])
      ++ progress_of env fs files (S n) f
  end.

(** The record of one document: what [assemble] makes of it with the
    registered extractors. *)
Definition record_of (env : Env) (article : Element) : result ArticleRecord :=
  (assemble (data_extractors env) article ∅ (MkWorld [] ∅ [])).1.

(** The records of a list of documents, up to the first exception. *)
Fixpoint records_of (env : Env) (articles : list Element)
    : result (list ArticleRecord) :=
  match articles with
  | [] => Ok []
  | article :: articles =>
      match record_of env article with
      | Raise e => Raise e
      | Ok rec =>
          match records_of env articles with
          | Raise e => Raise e
          | Ok recs => Ok (rec :: recs)
          end
      end
  end.

(** A computation whose result does not depend on the world and that does
    nothing but log. *)
Definition steady {A} (m : M A) : Prop :=
  ∀ w w0,
    (m w).1 = (m w0).1 ∧ w_fs (m w).2 = w_fs w ∧ w_open (m w).2 = w_open w ∧
    ∃ evs, w_trace (m w).2 = w_trace w ++ evs ∧ Forall is_log evs.

(** What a loop over [articles] with the body [yield] ends with, from the
    locals [s]. *)
Fixpoint fold_yield {L} (yield : Element → L → M L) (articles : list Element)
    (s : L) : result L :=
  match articles with
  | [] => Ok s
  | article :: articles =>
      match (yield article s (MkWorld [] ∅ [])).1 with
      | Ok s => fold_yield yield articles s
      | Raise e => Raise e
      end
  end.

(** What the loop of [extract_data_to_csv] has done when it returns: the
    counter [k] has grown by the number of [recs], which were handed to the
    writers in turn. *)
Definition handed_over (recs : list ArticleRecord) (k k' : nat) (w w' : World)
    : Prop :=
  w_fs w' = w_fs w ∧ k' = (k + length recs)%nat ∧
  ∃ evs, w_trace w' = w_trace w ++ evs ∧ write_calls evs = recs ≫= fan_out.

(** ** A small corpus *)

(** An article with an optional PMC id and a number of coordinates. *)
Definition ex_article (pmcid : option string) (n_coordinates : nat) : Element :=
  Elem "article" None
    (match pmcid with
     | Some i => [Elem "article-id" (Some i) []]
     | None => []
     end ++ replicate n_coordinates (Elem "coordinate" None [])).

Definition ex_parse (s : string) : option Element :=
  if decide (s = "article 1") then Some (ex_article (Some "1") 2)
  else if decide (s = "article 2") then Some (ex_article (Some "2") 1)
  else if decide (s = "article 3, no coordinates") then Some (ex_article (Some "3") 0)
  else if decide (s = "article without id") then Some (ex_article None 1)
  else if decide (s = "letter") then Some (Elem "letter" None [])
  else None.

(** A stylesheet that knows articles only, and that copies the id of the
    article. *)
Definition ex_stylesheet (doc : Element) : option Element :=
  if decide (tag doc = "article")
  then Some (Elem "extracted-text" None
               [Elem "pmcid" (find doc "article-id" ≫= text) [];
                Elem "title" (Some "A title") [];
                Elem "keywords" None [];
                Elem "abstract" (Some "An abstract") [];
                Elem "body" (Some "A body") []])
  else None.

Definition ex_coordinates (doc : Element) : list row :=
  (λ _, {["x" := VInt 0; "y" := VInt 0; "z" := VInt 0]})
    <$> filter (λ e, tag e = "coordinate") (children doc).

Definition ex_env : Env := {|
  etree_parse := ex_parse;
  text_stylesheet := ex_stylesheet;
  coordinate_fields := ["x"; "y"; "z"];
  coordinate_extract doc := Ok (Table (ex_coordinates doc));
  metadata_fields := ["pmcid"];
  metadata_extract doc :=
    Ok (Fields {["pmcid" := value_of_text (find doc "article-id" ≫= text)]});
  open_fails _ := false;
  write_fails _ _ _ := false
|}.


Definition ex_articles_dir : Path.t := ["data"; "articles"].

(** Shard [000] holds two articles and a file that is not XML, shard [001]
    an article without coordinates; the entries are not in order. *)
Definition ex_fs : FS :=
  [ (["data"], NDir);
    (["data"; "articles"], NDir);
    (["data"; "articles"; "001"], NDir);
    (["data"; "articles"; "000"], NDir);
    (["data"; "articles"; "001"; "pmcid_3.xml"],
       NFile (XmlText "article 3, no coordinates"));
    (["data"; "articles"; "000"; "pmcid_2.xml"], NFile (XmlText "article 2"));
    (["data"; "articles"; "000"; "pmcid_15.xml"], NFile (XmlText "<article"));
    (["data"; "articles"; "000"; "pmcid_1.xml"], NFile (XmlText "article 1"));
    (["data"; "articles"; "000"; "notes.txt"], NFile (XmlText "article 2")) ].

Definition ex_world : World := MkWorld ex_fs ∅ [].

(** The same tree as the operating system may enumerate it another time. *)
Definition ex_world_reordered : World := MkWorld (reverse ex_fs) ∅ [].

(** A corpus whose only article has no PMC id. *)
Definition ex_world_without_id : World :=
  MkWorld [ (["data"], NDir); (["data"; "articles"], NDir);
            (["data"; "articles"; "000"], NDir);
            (["data"; "articles"; "000"; "pmcid_7.xml"],
               NFile (XmlText "article without id")) ] ∅ [].


(** A world without the corpus root. *)
Definition ex_world_no_root : World := MkWorld [ (["data"], NDir) ] ∅ [].

(** A corpus with one shard of twenty-one articles, the fourth of which
    does not parse. *)
Definition ex_world_many : World :=
  MkWorld
    ([ (["data"], NDir); (["data"; "articles"], NDir);
       (["data"; "articles"; "000"], NDir) ] ++
     ((λ i : nat,
         (["data"; "articles"; "000";
           "pmcid_" +:+ String (Ascii.ascii_of_nat (97 + i)) ".xml"],
          NFile (XmlText (if decide (i = 3)%nat then "<article" else "article 1"))))
        <$> seq 0 21))
    ∅ [].

(** The record of the article with this id and this many coordinates. *)
Definition ex_record (pmcid : string) (n_coordinates : nat) : ArticleRecord :=
  {[ "coordinates" :=
       Table (replicate n_coordinates {["x" := VInt 0; "y" := VInt 0; "z" := VInt 0]});
     "metadata" := Fields {["pmcid" := VStr pmcid]};
     "text" :=
       Fields {[ "pmcid" := VInt (default 0%Z (int_of_str pmcid));
                 "title" := VStr "A title";
                 "keywords" := VNone;
                 "abstract" := VStr "An abstract";
                 "body" := VStr "A body" ]} ]}.

(** Equality of events is decidable, so that closed statements about a
    trace can be decided by evaluation. *)

#[global] Instance value_eq_dec : EqDecision value.
Proof. solve_decision. Defined.
#[global] Instance extracted_eq_dec : EqDecision extracted.
Proof. solve_decision. Defined.
#[global] Instance log_message_eq_dec : EqDecision log_message.
Proof. solve_decision. Defined.
#[global] Instance json_eq_dec : EqDecision json.
Proof. solve_decision. Defined.
#[global] Instance event_eq_dec : EqDecision event.
Proof. solve_decision. Defined.

(** Decide a closed proposition by evaluation. *)
Ltac by_vm_decide :=
  match goal with |- ?P => apply (bool_decide_unpack P); vm_compute; exact I end.

(** * Lemmas *)

(** ** The order on paths *)

Lemma path_le_refl p : Path.le p p.
Proof.
  unfold Path.le. induction p as [|a p IH]; simpl; [done|].
  by rewrite decide_True.
Qed.

Lemma path_le_trans p q r : Path.le p q → Path.le q r → Path.le p r.
Proof.
  unfold Path.le. revert q r.
  induction p as [|a p IH]; intros [|b q] [|c r]; simpl; try done.
  repeat case_decide; subst; try done; try apply IH;
    rewrite !bool_decide_eq_true; intros Hab Hbc.
  - exfalso. by eapply H, (anti_symm String.le).
  - by trans b.
Qed.

Lemma path_le_antisym p q : Path.le p q → Path.le q p → p = q.
Proof.
  unfold Path.le. revert q.
  induction p as [|a p IH]; intros [|b q]; simpl; try done.
  destruct (decide (a = b)) as [->|Hab].
  - rewrite decide_True by done. intros ??. f_equal. by apply IH.
  - rewrite decide_False by done. rewrite !bool_decide_eq_true.
    intros H1 H2. destruct Hab. by apply (anti_symm String.le).
Qed.

Lemma path_le_total p q : Path.le p q ∨ Path.le q p.
Proof.
  unfold Path.le. revert q.
  induction p as [|a p IH]; intros [|b q]; simpl; auto.
  destruct (decide (a = b)) as [->|Hab].
  - rewrite decide_True by done. apply IH.
  - rewrite decide_False by done. rewrite !bool_decide_eq_true.
    apply (total String.le).
Qed.

#[global] Instance path_le_preorder : PreOrder Path.le.
Proof. split; [exact path_le_refl | exact path_le_trans]. Qed.
#[global] Instance path_le_anti_symm : AntiSymm (=) Path.le.
Proof. exact path_le_antisym. Qed.
#[global] Instance path_le_is_total : Total Path.le.
Proof. exact path_le_total. Qed.

(** Below a common directory, paths compare as their final components. *)
Lemma path_le_joinpath d a b :
  Path.le (Path.joinpath d a) (Path.joinpath d b) ↔ String.le a b.
Proof.
  unfold Path.le, Path.joinpath. induction d as [|c d IH]; simpl.
  - destruct (decide (a = b)) as [->|Hab].
    + split; [intros _; reflexivity | done].
    + by rewrite bool_decide_eq_true.
  - by rewrite decide_True.
Qed.

(** ** Rules for computations *)

Lemma hoare_run {A} P (m : M A) Q E w r w' :
  hoare P m Q E → P w → m w = (r, w') →
  match r with Ok a => Q a w' | Raise e => E e w' end.
Proof. intros Hm HP Hrun. specialize (Hm w HP). by rewrite Hrun in Hm. Qed.

Lemma hoare_ret {A} (P : World → Prop) (a : A) (Q : A → World → Prop) E :
  (∀ w, P w → Q a w) → hoare P (mret a) Q E.
Proof. intros H w HP. by apply H. Qed.

Lemma hoare_raise {A} (P : World → Prop) e (Q : A → World → Prop)
    (E : exn → World → Prop) :
  (∀ w, P w → E e w) → hoare P (raise e) Q E.
Proof. intros H w HP. by apply H. Qed.

Lemma hoare_bind {A B} P (m : M A) (k : A → M B) Q' Q E :
  hoare P m Q' E → (∀ a, hoare (Q' a) (k a) Q E) → hoare P (m ≫= k) Q E.
Proof.
  intros Hm Hk w HP. unfold mbind, M_bind.
  specialize (Hm w HP). destruct (m w) as [[a|e] w1]; [by apply Hk | done].
Qed.

Lemma hoare_fmap {A B} P (f : A → B) (m : M A) (Q : B → World → Prop) E :
  hoare P m (λ a, Q (f a)) E → hoare P (f <$> m) Q E.
Proof.
  intros Hm. unfold fmap, M_fmap. eapply hoare_bind; [exact Hm|].
  intros a. by apply hoare_ret.
Qed.

Lemma hoare_conseq {A} (P P' : World → Prop) (m : M A)
    (Q Q' : A → World → Prop) (E E' : exn → World → Prop) :
  hoare P' m Q' E' →
  (∀ w, P w → P' w) → (∀ a w, Q' a w → Q a w) → (∀ e w, E' e w → E e w) →
  hoare P m Q E.
Proof.
  intros Hm HP HQ HE w Hw. specialize (Hm w (HP w Hw)).
  destruct (m w) as [[a|e] w1]; auto.
Qed.

Lemma hoare_get_fs (P : World → Prop) (Q : FS → World → Prop) E :
  (∀ w, P w → Q (w_fs w) w) → hoare P get_fs Q E.
Proof. intros H w HP. by apply H. Qed.

Lemma hoare_get_open (P : World → Prop) (Q : gmap Path.t handle → World → Prop) E :
  (∀ w, P w → Q (w_open w) w) → hoare P get_open Q E.
Proof. intros H w HP. by apply H. Qed.

Lemma hoare_emit (P : World → Prop) ev (Q : unit → World → Prop) E :
  (∀ w, P w → Q () (add_event ev w)) → hoare P (emit ev) Q E.
Proof. intros H w HP. by apply H. Qed.

Lemma hoare_try_finally {A} (P : World → Prop) (body : M A) cleanup
    (Q' Q : A → World → Prop) (E' E : exn → World → Prop) :
  hoare P body Q' E' →
  (∀ a, hoare (Q' a) (cleanup (Some a)) (λ _, Q a) E) →
  (∀ e, hoare (E' e) (cleanup None) (λ _, E e) E) →
  hoare P (try_finally body cleanup) Q E.
Proof.
  intros Hbody Hsome Hnone w HP. unfold try_finally.
  specialize (Hbody w HP). destruct (body w) as [[a|e] w1].
  - specialize (Hsome a w1 Hbody). by destruct (cleanup (Some a) w1) as [[[]|e] w2].
  - specialize (Hnone e w1 Hbody). by destruct (cleanup None w1) as [[[]|e'] w2].
Qed.

Lemma hoare_assert_exists (P : World → Prop) p (Q : unit → World → Prop)
    (E : exn → World → Prop) :
  (∀ w, P w → is_Some (fs_lookup (w_fs w) p) → Q () w) →
  (∀ w, P w → fs_lookup (w_fs w) p = None → E (FileNotFoundError p) w) →
  hoare P (assert_exists p) Q E.
Proof.
  intros HQ HE w HP. unfold assert_exists, mbind, M_bind, get_fs.
  destruct (fs_lookup (w_fs w) p) eqn:Hp; simpl; auto.
Qed.

Section generator_rules.
Context (env : Env) {L : Type}.
Context (I : L → World → Prop) (E : exn → World → Prop).
Hypothesis I_log : ∀ s, log_stable (I s).
Hypothesis E_log : ∀ e, log_stable (E e).

Lemma hoare_visit_file subdir article_file (yield : Element → L → M L) n f s :
  (∀ a s, hoare (I s) (yield a s) I E) →
  hoare (I s) (visit_file env subdir article_file yield n f s) (λ r, I r.2) E.
Proof.
  intros Hyield. unfold visit_file.
  apply hoare_bind with (Q' := λ _, I s); [by apply hoare_get_fs|].
  intros fs. apply hoare_try_finally with (Q' := λ r, I r.2) (E' := E).
  - destruct (parse_file env fs article_file) as [article|].
    + eapply hoare_bind; [apply Hyield|].
      intros s'. by apply hoare_ret.
    + eapply hoare_bind with (Q' := λ _, I s).
      { apply hoare_emit. intros w Hw. by apply I_log. }
      intros _. by apply hoare_ret.
  - intros [f' s']. cbv zeta. case_bool_decide; [|by apply hoare_ret].
    apply hoare_emit. intros w Hw. by apply I_log.
  - intros e. cbv zeta. case_bool_decide; [|by apply hoare_ret].
    apply hoare_emit. intros w Hw. by apply E_log.
Qed.

(** The rule of the [for] loop over a generator: an invariant of the
    loop body that the log does not affect is an invariant of the
    traversal. *)
Lemma hoare_iter_files subdir files (yield : Element → L → M L) n f s :
  (∀ a s, hoare (I s) (yield a s) I E) →
  hoare (I s) (iter_files env subdir files yield n f s)
    (λ r, I r.2) E.
Proof.
  intros Hyield. revert n f s.
  induction files as [|article_file files IH]; intros n f s; cbn [iter_files].
  - by apply hoare_ret.
  - eapply hoare_bind; [by apply hoare_visit_file|].
    intros [f' s']. apply IH.
Qed.

Lemma hoare_iter_subdirs subdirs (yield : Element → L → M L) n f s :
  (∀ a s, hoare (I s) (yield a s) I E) →
  hoare (I s) (iter_subdirs env subdirs yield n f s)
    (λ r, I r.2) E.
Proof.
  intros Hyield. revert n f s.
  induction subdirs as [|subdir subdirs IH]; intros n f s; simpl.
  - by apply hoare_ret.
  - apply hoare_bind with (Q' := λ _, I s); [by apply hoare_get_fs|].
    intros fs.
    eapply hoare_bind; [by apply hoare_iter_files|].
    intros [[n' f'] s']. apply IH.
Qed.

Hypothesis I_E : ∀ s e w, I s w → E e w.

Lemma hoare_iter_articles articles_dir (yield : Element → L → M L) s :
  (∀ a s, hoare (I s) (yield a s) I E) →
  hoare (I s) (iter_articles env articles_dir yield s) I E.
Proof.
  intros Hyield. unfold iter_articles, iter_articles_locals.
  eapply hoare_bind.
  - eapply hoare_bind with (Q' := λ _, I s).
    { apply hoare_assert_exists; eauto. }
    intros _. apply hoare_bind with (Q' := λ _, I s); [by apply hoare_get_fs|].
    intros fs. by apply hoare_iter_subdirs.
  - intros [[n f] s']. by apply hoare_ret.
Qed.

(** A computation that leaves the world as it is keeps the invariant. *)
Lemma hoare_unchanged {A} (m : M A) s :
  (∀ w, (m w).2 = w) → hoare (I s) m (λ _, I s) E.
Proof.
  intros Hm w Hw. specialize (Hm w).
  destruct (m w) as [[a|e] w1]; simpl in *; subst; eauto.
Qed.

Lemma extract_parts_unchanged transformed part_names result w :
  (extract_parts transformed part_names result w).2 = w.
Proof.
  revert result. induction part_names as [|part_name rest IH]; intros result;
    simpl; [done|].
  destruct (find transformed part_name); [apply IH | done].
Qed.

Lemma py_int_unchanged v w : (py_int v w).2 = w.
Proof. destruct v as [|x|n]; simpl; [done| |done]. by destruct (int_of_str x). Qed.

Lemma hoare_extract_text article s :
  hoare (I s) (_extract_text_from_article env article) (λ _, I s) E.
Proof.
  unfold _extract_text_from_article.
  destruct (text_stylesheet env article) as [transformed|].
  - eapply hoare_bind; [apply hoare_unchanged, extract_parts_unchanged|].
    intros result.
    eapply hoare_bind with (Q' := λ _, I s); [|intros pmcid; by apply hoare_ret].
    apply hoare_unchanged. intros w.
    destruct (result !! "pmcid"); [apply py_int_unchanged | done].
  - eapply hoare_bind with (Q' := λ _, I s); [|intros _; by apply hoare_ret].
    apply hoare_emit. intros w Hw. by apply I_log.
Qed.

(** Every registered extractor keeps the invariant. *)
Lemma hoare_extract extractor article s :
  extractor ∈ [CoordinateExtractor env; MetadataExtractor env; TextExtractor env] →
  hoare (I s) (extract extractor article) (λ _, I s) E.
Proof.
  rewrite !elem_of_cons, elem_of_nil. intros [->|[->|[->|[]]]]; simpl.
  - by apply hoare_unchanged.
  - by apply hoare_unchanged.
  - apply hoare_fmap, hoare_extract_text.
Qed.

(** The record that the assembler builds has one key for each
    extractor, next to the keys it started from. *)
Lemma hoare_assemble extractors article acc s :
  extractors ⊆ [CoordinateExtractor env; MetadataExtractor env; TextExtractor env] →
  hoare (I s) (assemble extractors article acc)
    (λ rec w, I s w ∧ dom rec = dom acc ∪ list_to_set (name <$> extractors)) E.
Proof.
  revert acc. induction extractors as [|extractor rest IH]; intros acc Hsub; simpl.
  - apply hoare_ret. intros w Hw. split; [done|]. set_solver.
  - eapply hoare_bind.
    { apply hoare_extract. apply Hsub. by left. }
    intros data. eapply hoare_conseq; [apply IH| | |]; simpl; eauto.
    + intros x Hx. apply Hsub. by right.
    + intros rec w [Hw ->]. split; [done|]. rewrite dom_insert_L. set_solver.
Qed.

(** The rule for [for article_data in extract_data(...)]: the body only
    ever receives records whose keys are the names of the registered
    extractors. *)
Lemma hoare_extract_data articles_dir flag (yield : ArticleRecord → L → M L) s :
  (∀ rec s, dom rec = {["coordinates"; "metadata"; "text"]} →
            hoare (I s) (yield rec s) I E) →
  hoare (I s) (extract_data env articles_dir flag yield s) I E.
Proof.
  intros Hyield. unfold extract_data.
  eapply hoare_bind with (Q' := λ _, I s).
  { apply hoare_assert_exists; eauto. }
  intros _. apply hoare_iter_articles. intros article s'.
  eapply hoare_bind; [by apply hoare_assemble|].
  intros rec. simpl. intros w [Hw Hdom]. apply Hyield; [|done].
  rewrite Hdom. set_solver.
Qed.
End generator_rules.

(** ** Running a sequence of two computations *)

Lemma bind_inv {A B} (m : M A) (k : A → M B) w r w' :
  (m ≫= k) w = (r, w') →
  (∃ a w1, m w = (Ok a, w1) ∧ k a w1 = (r, w')) ∨
  (∃ e, m w = (Raise e, w') ∧ r = Raise e).
Proof.
  unfold mbind, M_bind. destruct (m w) as [[a|e] w1]; intros Hrun.
  - left. eauto.
  - right. exists e. by simplify_eq.
Qed.

Lemma bind_Ok_inv {A B} (m : M A) (k : A → M B) w b w' :
  (m ≫= k) w = (Ok b, w') → ∃ a w1, m w = (Ok a, w1) ∧ k a w1 = (Ok b, w').
Proof. intros [?|(e & _ & ?)]%bind_inv; [done | discriminate]. Qed.

Lemma assert_exists_missing p w :
  fs_lookup (w_fs w) p = None → assert_exists p w = (Raise (FileNotFoundError p), w).
Proof. intros Hp. unfold assert_exists, mbind, M_bind, get_fs. by rewrite Hp. Qed.

Lemma assert_exists_present p w :
  is_Some (fs_lookup (w_fs w) p) → assert_exists p w = (Ok (), w).
Proof. intros [n Hp]. unfold assert_exists, mbind, M_bind, get_fs. by rewrite Hp. Qed.

(** ** The trace of a run *)

Lemma trace_ext_refl Pev w : trace_ext Pev w w.
Proof. exists []. by rewrite app_nil_r. Qed.

Lemma trace_ext_trans Pev w1 w2 w3 :
  trace_ext Pev w1 w2 → trace_ext Pev w2 w3 → trace_ext Pev w1 w3.
Proof.
  intros (evs1 & H1 & HP1) (evs2 & H2 & HP2). exists (evs1 ++ evs2).
  split; [by rewrite H2, H1, app_assoc | by apply Forall_app].
Qed.

Lemma trace_ext_add_event (Pev : event → Prop) ev w :
  Pev ev → trace_ext Pev w (add_event ev w).
Proof. intros Hev. exists [ev]. split; [done | by apply Forall_singleton]. Qed.

Lemma trace_ext_mono (Pev Pev' : event → Prop) w w' :
  (∀ ev, Pev ev → Pev' ev) → trace_ext Pev w w' → trace_ext Pev' w w'.
Proof. intros Himpl (evs & H & HP). exists evs. split; [done|]. eapply Forall_impl; eauto. Qed.

Lemma write_calls_app evs1 evs2 :
  write_calls (evs1 ++ evs2) = write_calls evs1 ++ write_calls evs2.
Proof. apply omap_app. Qed.

Lemma write_calls_none evs :
  Forall (λ ev, ¬ is_write_call ev) evs → write_calls evs = [].
Proof.
  induction 1 as [|ev evs Hev _ IH]; [done|].
  destruct ev; simpl in *; try done; exact IH.
Qed.

Section streaming.
Context (env : Env).

Lemma streamed_log w0 n w ev :
  streamed w0 n w → is_log ev → streamed w0 n (add_event ev w).
Proof.
  intros (Hfs & Hdom & recs & evs & Hn & Hkeys & Htrace & Hevs & Hcalls) Hev.
  split_and!; [done..|]. exists recs, (evs ++ [ev]). simpl.
  rewrite Htrace, app_assoc, write_calls_app, Hcalls.
  split_and!; [done..| |].
  - apply Forall_app. split; [done|]. apply Forall_singleton. by left.
  - destruct ev; simpl in *; by rewrite ?app_nil_r.
Qed.

Lemma writer_write_run writer rec w r w' :
  writer_write env writer rec w = (r, w') →
  w_fs w' = w_fs w ∧ dom (w_open w') = dom (w_open w) ∧
  match r with
  | Ok _ => w_trace w' = w_trace w ++ [EvWrite (cw_name writer) rec]
  | Raise _ => trace_ext loop_event w w'
  end.
Proof.
  unfold writer_write, mbind, M_bind, emit, get_open, set_open, raise. simpl.
  destruct (w_open w !! cw_output_file writer) as [h|] eqn:Hh; simpl.
  - destruct (rec !! cw_name writer) as [data|]; simpl.
    + destruct (write_fails env _ _ _); simpl; intros; simplify_eq; simpl.
      * split_and!; [done..|]. eapply trace_ext_trans; by apply trace_ext_add_event.
      * split_and!; [done| |done]. rewrite dom_insert_L.
        apply elem_of_dom_2 in Hh. set_solver.
    + intros; simplify_eq. split_and!; [done..|]. by apply trace_ext_add_event.
  - intros; simplify_eq. split_and!; [done..|]. by apply trace_ext_add_event.
Qed.

Lemma write_all_run writers rec w r w' :
  for_each writers (λ writer, writer_write env writer rec) w = (r, w') →
  w_fs w' = w_fs w ∧ dom (w_open w') = dom (w_open w) ∧
  match r with
  | Ok _ =>
      w_trace w' = w_trace w ++ ((λ writer, EvWrite (cw_name writer) rec) <$> writers)
  | Raise _ => trace_ext loop_event w w'
  end.
Proof.
  revert w. induction writers as [|writer writers IH]; intros w; simpl.
  - intros [= <- <-]. by rewrite app_nil_r.
  - intros [([] & w1 & Hfirst & Hrest)|(e & Hfirst & ->)]%bind_inv;
      apply writer_write_run in Hfirst as (Hfs & Hdom & Htrace); [|done].
    apply IH in Hrest as (Hfs' & Hdom' & Htrace').
    split_and!; [congruence..|]. destruct r as [[]|e].
    + by rewrite Htrace', Htrace, <-app_assoc.
    + eapply trace_ext_trans; [|done].
      exists [EvWrite (cw_name writer) rec]. split; [done|]. by apply Forall_singleton.
Qed.

Lemma write_article_run output_dir rec n w r w' :
  write_article env (all_writers env output_dir) rec n w = (r, w') →
  w_fs w' = w_fs w ∧ dom (w_open w') = dom (w_open w) ∧
  match r with
  | Ok n' =>
      n' = S n ∧
      w_trace w' = w_trace w ++
        [EvWrite "metadata" rec; EvWrite "text" rec; EvWrite "coordinates" rec]
  | Raise _ => trace_ext loop_event w w'
  end.
Proof.
  unfold write_article.
  intros [([] & w1 & Hwrites & [= <- <-])|(e & Hwrites & ->)]%bind_inv;
    apply write_all_run in Hwrites as (Hfs & Hdom & Htrace); done.
Qed.

(** The streaming loop: when it returns, the records it counted are the
    records it handed to every writer; when it raises, it has touched
    neither the file system nor the set of open files. *)
Lemma hoare_streaming articles_dir flag output_dir w0 :
  hoare (streamed w0 0%nat)
    (extract_data env articles_dir flag
       (write_article env (all_writers env output_dir)) 0%nat)
    (streamed w0) (interrupted w0).
Proof.
  apply hoare_extract_data.
  - intros n w m Hw. split; by apply streamed_log.
  - intros e w m (Hfs & Hdom & Htrace).
    split; (split_and!; [done..|]);
      (eapply trace_ext_trans; [done|]); by apply trace_ext_add_event.
  - intros n e w (Hfs & Hdom & recs & evs & Hn & Hkeys & Htrace & Hevs & Hcalls).
    split_and!; [done..|]. exists evs. split; [done|].
    eapply Forall_impl; [done|]. intros [] [|]; done.
  - intros rec n Hrec w (Hfs & Hdom & recs & evs & Hn & Hkeys & Htrace & Hevs & Hcalls).
    destruct (write_article _ _ _ _ w) as [[n'|e] w'] eqn:Hrun;
      apply write_article_run in Hrun as (Hfs' & Hdom' & Hres).
    + destruct Hres as [-> Htrace']. split_and!; [congruence..|].
      exists (recs ++ [rec]), (evs ++ [EvWrite "metadata" rec; EvWrite "text" rec;
                                       EvWrite "coordinates" rec]).
      rewrite Htrace', Htrace, <-app_assoc, write_calls_app, Hcalls, bind_app.
      rewrite length_app. simpl. split_and!; [lia| |done| |done].
      * apply Forall_app. split; [done|]. by apply Forall_singleton.
      * apply Forall_app. split; [done|]. repeat constructor; by right.
    + split_and!; [congruence..|]. eapply trace_ext_trans; [|done].
      exists evs. split; [done|]. eapply Forall_impl; [done|]. intros [] [|]; done.
Qed.
End streaming.

(** ** The file system *)

Lemma fs_lookup_write_eq p n fs : fs_lookup (fs_write p n fs) p = Some n.
Proof.
  induction fs as [|[q m] fs IH]; simpl.
  - by rewrite decide_True.
  - destruct (decide (q = p)) as [->|Hne]; simpl.
    + by rewrite decide_True.
    + by rewrite decide_False.
Qed.

Lemma fs_lookup_write_ne p q n fs :
  p ≠ q → fs_lookup (fs_write p n fs) q = fs_lookup fs q.
Proof.
  intros Hpq. induction fs as [|[p' m] fs IH]; simpl.
  - by rewrite decide_False.
  - destruct (decide (p' = p)) as [->|Hne]; simpl.
    + by rewrite !decide_False.
    + destruct (decide (p' = q)); [done | apply IH].
Qed.

Lemma fs_lookup_flush_ne file header buffer fs q :
  file ≠ q → fs_lookup (flush file header buffer fs) q = fs_lookup fs q.
Proof.
  intros Hne. unfold flush.
  destruct (fs_lookup fs file) as [[|[]]|]; by rewrite fs_lookup_write_ne.
Qed.

Lemma mkdir_from_run above below w r w' :
  mkdir_from above below w = (r, w') →
  w_open w' = w_open w ∧ trace_ext scope_event w w' ∧
  (∀ p, length above + length below < length p →
        fs_lookup (w_fs w') p = fs_lookup (w_fs w) p).
Proof.
  revert above w. induction below as [|c below IH]; intros above w; simpl.
  - intros [= <- <-]. split_and!; [done|apply trace_ext_refl|done].
  - assert (length (Path.joinpath above c) = S (length above)) as Hlen.
    { unfold Path.joinpath. rewrite length_app. simpl. lia. }
    unfold mbind at 1, M_bind at 1, get_fs at 1.
    intros [([] & w1 & Hstep & Hrest)|(e & Hstep & ->)]%bind_inv.
    + apply IH in Hrest as (Hopen & Htrace & Hfs).
      destruct (fs_lookup (w_fs w) (Path.joinpath above c)) as [[|d]|] eqn:Hp.
      * injection Hstep as <-. split_and!; [done..|].
        intros p Hp'. apply Hfs. lia.
      * discriminate.
      * injection Hstep as <-. simpl in *. split_and!; [done| |].
        { destruct Htrace as (evs & Htrace & Hevs). simpl in Htrace.
          exists (EvMkdir (Path.joinpath above c) :: evs).
          split; [by rewrite Htrace, <-app_assoc | by constructor]. }
        intros p Hp'. rewrite Hfs by lia.
        apply fs_lookup_write_ne. intros <-. lia.
    + destruct (fs_lookup (w_fs w) (Path.joinpath above c)) as [[|d]|] eqn:Hp;
        [discriminate| |discriminate].
      injection Hstep as _ <-. split_and!; [done|apply trace_ext_refl|done].
Qed.

Lemma get_output_dir_run articles_dir output_dir flag w r w' :
  _get_output_dir articles_dir output_dir flag w = (r, w') →
  w_open w' = w_open w ∧ trace_ext scope_event w w' ∧
  (∀ o p, resolved_output_dir articles_dir output_dir flag = Some o →
          length o < length p → fs_lookup (w_fs w') p = fs_lookup (w_fs w) p) ∧
  match r with
  | Ok o => resolved_output_dir articles_dir output_dir flag = Some o
  | Raise _ => True
  end.
Proof.
  unfold _get_output_dir.
  intros [(o & w1 & Hresolve & Hmkdir)|(e & Hresolve & ->)]%bind_inv.
  - assert (w1 = w ∧ resolved_output_dir articles_dir output_dir flag = Some o)
      as [-> Ho].
    { destruct output_dir as [d|]; simpl in *; [by injection Hresolve as <- <-|].
      destruct articles_dir, flag; unfold with_name, raise, mret, M_ret in Hresolve;
        by simplify_eq. }
    apply bind_inv in Hmkdir as [([] & w2 & Hmkdir & [= <- <-])|(e & Hmkdir & ->)];
      apply (mkdir_from_run []) in Hmkdir as (Hopen & Htrace & Hfs);
      (split_and!; [done..| |done]);
      intros o' p Ho' Hlen; apply Hfs; simpl; congruence.
  - destruct output_dir as [d|]; simpl in *; [discriminate|].
    destruct articles_dir; [|discriminate]. injection Hresolve as _ <-.
    split_and!; [done|apply trace_ext_refl|done..].
Qed.

(** ** The scope of the writers *)

Section scope.
Context (env : Env).

(** [for writer in all_writers: stack.enter_context(writer)] *)
Local Abbreviation enter_all writers :=
  (for_each writers
     (λ writer, enter_context (writer_enter env writer) (writer_exit writer))).

Lemma writer_enter_run writer w r w' :
  writer_enter env writer w = (r, w') →
  match r with
  | Ok _ =>
      w' = MkWorld
             (fs_write (cw_output_file writer)
                (NFile (CsvTable (cw_fields writer) [])) (w_fs w))
             (<[cw_output_file writer := Handle 0 []]> (w_open w))
             (w_trace w ++ [EvOpen (cw_name writer)])
  | Raise _ => w' = w
  end.
Proof.
  unfold writer_enter.
  cbv beta iota delta [mbind M_bind mret M_ret get_fs set_fs get_open set_open emit raise].
  destruct (_ || _); intros; by simplify_eq.
Qed.

(** The writers are entered in order; the stack holds the exits of those
    that were entered, the last one first. *)
Lemma enter_all_run writers stack w r stack' w' :
  enter_all writers stack w = (r, stack', w') →
  ∃ entered rest,
    writers = entered ++ rest ∧
    stack' = (writer_exit <$> reverse entered) ++ stack ∧
    (if r is Ok _ then rest = [] else True) ∧
    trace_ext scope_event w w' ∧
    dom (w_open w') = dom (w_open w) ∪ list_to_set (cw_output_file <$> entered) ∧
    (∀ p, p ∉ cw_output_file <$> entered →
          fs_lookup (w_fs w') p = fs_lookup (w_fs w) p).
Proof.
  revert stack w. induction writers as [|writer writers IH]; intros stack w; simpl.
  - intros [= <- <- <-]. exists [], []. split_and!; try done.
    + apply trace_ext_refl.
    + set_solver.
  - unfold mbind at 1, StackM_bind at 1, enter_context at 1.
    destruct (writer_enter env writer w) as [[[]|e] w1] eqn:Henter;
      apply writer_enter_run in Henter; subst w1.
    + intros (entered & rest & -> & -> & Hrest & Htrace & Hdom & Hfs)%IH.
      exists (writer :: entered), rest. split_and!; try done.
      * by rewrite reverse_cons, fmap_app, <-app_assoc.
      * destruct Htrace as (evs & Htrace & Hevs). simpl in Htrace.
        exists (EvOpen (cw_name writer) :: evs).
        split; [by rewrite Htrace, <-app_assoc | by constructor].
      * rewrite Hdom. simpl. rewrite dom_insert_L. set_solver.
      * intros p Hp. rewrite fmap_cons, not_elem_of_cons in Hp.
        destruct Hp as [Hp1 Hp2]. rewrite Hfs by done. simpl.
        by apply fs_lookup_write_ne.
    + intros [= <- <- <-]. exists [], (writer :: writers). split_and!; try done.
      * apply trace_ext_refl.
      * set_solver.
Qed.

Lemma writer_exit_run writer w :
  let w' := writer_exit writer w in
  dom (w_open w') = dom (w_open w) ∖ {[cw_output_file writer]} ∧
  (∀ p, p ≠ cw_output_file writer → fs_lookup (w_fs w') p = fs_lookup (w_fs w) p) ∧
  ∃ evs, w_trace w' = w_trace w ++ evs ∧ Forall scope_event evs ∧
         (cw_output_file writer ∈ dom (w_open w) → EvClose (cw_name writer) ∈ evs).
Proof.
  unfold writer_exit.
  destruct (w_open w !! cw_output_file writer) as [h|] eqn:Hh; simpl.
  - split_and!.
    + by rewrite dom_delete_L.
    + intros p Hp. by apply fs_lookup_flush_ne.
    + exists [EvClose (cw_name writer)]. split_and!; [done| |].
      * by apply Forall_singleton.
      * intros _. by apply list_elem_of_singleton.
  - apply not_elem_of_dom in Hh. split_and!; [set_solver|done|].
    exists []. rewrite app_nil_r. done.
Qed.

(** When the scope exits, every writer of the stack is closed. *)
Lemma close_all_run writers w :
  let w' := close_all (writer_exit <$> writers) w in
  dom (w_open w') = dom (w_open w) ∖ list_to_set (cw_output_file <$> writers) ∧
  (∀ p, p ∉ cw_output_file <$> writers →
        fs_lookup (w_fs w') p = fs_lookup (w_fs w) p) ∧
  ∃ evs, w_trace w' = w_trace w ++ evs ∧ Forall scope_event evs ∧
         (NoDup (cw_output_file <$> writers) →
          ∀ writer, writer ∈ writers → cw_output_file writer ∈ dom (w_open w) →
                    EvClose (cw_name writer) ∈ evs).
Proof.
  revert w. induction writers as [|writer writers IH]; intros w; cbv zeta.
  - split_and!; [set_solver|done|]. exists []. rewrite app_nil_r.
    split_and!; [done..|]. intros _ ? ?%elem_of_nil. done.
  - change (close_all (writer_exit <$> writer :: writers) w)
      with (close_all (writer_exit <$> writers) (writer_exit writer w)).
    destruct (writer_exit_run writer w) as (Hdom1 & Hfs1 & evs1 & Htr1 & Hevs1 & Hclose1).
    destruct (IH (writer_exit writer w)) as (Hdom & Hfs & evs & Htr & Hevs & Hclose).
    rewrite fmap_cons. split_and!.
    + rewrite Hdom, Hdom1. set_solver.
    + intros p [Hp1 Hp2]%not_elem_of_cons. rewrite Hfs by done. by apply Hfs1.
    + exists (evs1 ++ evs). split_and!.
      * by rewrite Htr, Htr1, app_assoc.
      * by apply Forall_app.
      * intros [Hnotin Hnodup]%NoDup_cons writer' [->|Hin]%elem_of_cons Hopen.
        -- apply elem_of_app. left. by apply Hclose1.
        -- apply elem_of_app. right. apply Hclose; [done..|].
           rewrite Hdom1. apply elem_of_difference. split; [done|].
           intros Heq%elem_of_singleton. apply Hnotin. rewrite <-Heq.
           by apply list_elem_of_fmap_2.
Qed.
(** [with ExitStack() as stack:] around the entering of the writers and
    a body [m]: either some writer could not be entered and the body did
    not run, or all writers were entered and the body ran; in both cases
    the writers that were entered are closed at the end. *)
Lemma scope_run {A} writers (m : M A) w r w' :
  with_ExitStack (enter_all writers;; lift m) w = (r, w') →
  ∃ entered rest w1 w2,
    writers = entered ++ rest ∧
    trace_ext scope_event w w1 ∧
    dom (w_open w1) = dom (w_open w) ∪ list_to_set (cw_output_file <$> entered) ∧
    (∀ p, p ∉ cw_output_file <$> entered →
          fs_lookup (w_fs w1) p = fs_lookup (w_fs w) p) ∧
    w' = close_all (writer_exit <$> reverse entered) w2 ∧
    ((rest = [] ∧ m w1 = (r, w2)) ∨ (w2 = w1 ∧ ∃ e, r = Raise e)).
Proof.
  unfold with_ExitStack, mbind, StackM_bind.
  destruct (enter_all writers [] w) as [[[[]|e] stack] w1] eqn:Henter;
    apply enter_all_run in Henter
      as (entered & rest & -> & -> & Hrest & Htrace & Hdom & Hfs);
    rewrite app_nil_r.
  - unfold lift. destruct (m w1) as [r2 w2] eqn:Hm. intros [= <- <-].
    exists entered, rest, w1, w2. split_and!; try done. left. by subst rest.
  - intros [= <- <-]. exists entered, rest, w1, w1. split_and!; try done.
    right. eauto.
Qed.
End scope.

Lemma write_text_run p j w r w' :
  write_text p j w = (r, w') →
  match r with
  | Ok _ =>
      w' = MkWorld (fs_write p (NFile (JsonText j)) (w_fs w)) (w_open w)
             (w_trace w ++ [EvWriteText p j])
  | Raise _ => w' = w
  end.
Proof.
  unfold write_text.
  cbv beta iota delta [mbind M_bind mret M_ret get_fs set_fs emit raise].
  destruct (fs_is_dir _ _); intros; by simplify_eq.
Qed.

Lemma scope_event_quiet evs :
  Forall scope_event evs →
  write_calls evs = [] ∧
  (∀ n rec, EvWriteRaised n rec ∉ evs) ∧ (∀ p j, EvWriteText p j ∉ evs).
Proof.
  intros Hevs. split_and!.
  - apply write_calls_none. eapply Forall_impl; [done|]. intros []; simpl; tauto.
  - intros n rec Hin. by eapply Forall_forall in Hin; [|done].
  - intros p j Hin. by eapply Forall_forall in Hin; [|done].
Qed.

Lemma loop_event_no_write_text evs p j :
  Forall loop_event evs → EvWriteText p j ∉ evs.
Proof. intros Hevs Hin. by eapply Forall_forall in Hin; [|done]. Qed.

(** The files of the three writers are distinct, and none of them is the
    run summary. *)
Lemma all_writers_files env output_dir :
  NoDup (cw_output_file <$> all_writers env output_dir) ∧
  Path.joinpath output_dir "info.json" ∉ cw_output_file <$> all_writers env output_dir.
Proof.
  unfold all_writers, from_extractor, Path.joinpath. simpl. split.
  - repeat constructor; rewrite ?elem_of_cons, ?elem_of_nil;
      intros H; repeat destruct H as [H|H]; try done;
      by apply app_inv_head in H.
  - rewrite !elem_of_cons, elem_of_nil.
    intros H; repeat destruct H as [H|H]; try done; by apply app_inv_head in H.
Qed.

Lemma assert_exists_run p w r w' : assert_exists p w = (r, w') → w' = w.
Proof.
  unfold assert_exists, mbind, M_bind, get_fs, raise, mret, M_ret.
  destruct (fs_lookup _ _); by intros [= _ <-].
Qed.

(** ** The scope around the streaming loop *)

Lemma streaming_scope_run env articles_dir flag o w r w' :
  with_ExitStack
    (for_each (all_writers env o)
       (λ writer, enter_context (writer_enter env writer) (writer_exit writer));;
     lift (extract_data env articles_dir flag
             (write_article env (all_writers env o)) 0%nat)) w = (r, w') →
  ∃ evs,
    w_trace w' = w_trace w ++ evs ∧
    (∀ p j, EvWriteText p j ∉ evs) ∧
    fs_lookup (w_fs w') (Path.joinpath o "info.json")
    = fs_lookup (w_fs w) (Path.joinpath o "info.json") ∧
    match r with
    | Ok n =>
        ∃ recs,
          n = length recs ∧ Forall (λ rec, dom rec = registered_names) recs ∧
          write_calls evs = recs ≫= fan_out ∧
          (∀ n rec, EvWriteRaised n rec ∉ evs) ∧
          (∀ writer, writer ∈ all_writers env o →
                     cw_output_file writer ∉ dom (w_open w'))
    | Raise _ =>
        (∃ n rec, EvWriteRaised n rec ∈ evs) →
        ∀ writer, writer ∈ all_writers env o →
                  (cw_output_file writer ∉ dom (w_open w')) ∧
                  EvClose (cw_name writer) ∈ evs
    end.
Proof.
  destruct (all_writers_files env o) as [Hnodup Hinfo].
  intros (entered & rest & w1 & w2 & Hws & (evs1 & Htr1 & Hevs1) & Hdom1 & Hfs1
          & -> & Hbody)%scope_run.
  destruct (close_all_run (reverse entered) w2)
    as (Hdom3 & Hfs3 & evs3 & Htr3 & Hevs3 & Hclose).
  destruct (scope_event_quiet _ Hevs1) as (Hcalls1 & Hnoraise1 & Hnotext1).
  destruct (scope_event_quiet _ Hevs3) as (Hcalls3 & Hnoraise3 & Hnotext3).
  assert (∀ p, p ∈ cw_output_file <$> entered →
               p ∈ cw_output_file <$> all_writers env o) as Hsub.
  { intros p. rewrite Hws, fmap_app, elem_of_app. by left. }
  assert (Path.joinpath o "info.json" ∉ cw_output_file <$> reverse entered) as Hinfo'.
  { rewrite fmap_reverse, elem_of_reverse. intros Hin. by apply Hinfo, Hsub. }
  assert (Path.joinpath o "info.json" ∉ cw_output_file <$> entered) as Hinfo''.
  { intros Hin. by apply Hinfo, Hsub. }
  destruct Hbody as [[-> Hbody]|[-> [e ->]]].
  - rewrite app_nil_r in Hws. subst entered.
    assert (streamed w1 0%nat w1) as Hstart.
    { split_and!; [done..|]. exists [], []. by rewrite app_nil_r. }
    pose proof (hoare_run _ _ _ _ _ _ _ (hoare_streaming env articles_dir flag o w1)
                  Hstart Hbody) as Hloop.
    assert (∀ writer, writer ∈ all_writers env o →
                      cw_output_file writer ∉
                        dom (w_open (close_all (writer_exit <$> reverse (all_writers env o)) w2)))
      as Hclosed.
    { intros writer Hin. rewrite Hdom3. apply not_elem_of_difference. right.
      apply elem_of_list_to_set. rewrite fmap_reverse, elem_of_reverse.
      by apply list_elem_of_fmap_2. }
    destruct r as [n|e].
    + destruct Hloop as (Hfs2 & Hdom2 & recs & evs2 & Hn & Hkeys & Htr2 & Hevs2 & Hcalls2).
      exists (evs1 ++ evs2 ++ evs3). split_and!.
      * by rewrite Htr3, Htr2, Htr1, <-!app_assoc.
      * intros p j [Hin|[Hin|Hin]%elem_of_app]%elem_of_app;
          [by apply Hnotext1 in Hin| |by apply Hnotext3 in Hin].
        eapply Forall_forall in Hin; [|done]. by destruct Hin.
      * rewrite Hfs3, Hfs2, Hfs1; done.
      * exists recs. split_and!; [done|done| | |done].
        -- by rewrite !write_calls_app, Hcalls1, Hcalls2, Hcalls3, app_nil_r.
        -- intros n' rec [Hin|[Hin|Hin]%elem_of_app]%elem_of_app;
             [by apply Hnoraise1 in Hin| |by apply Hnoraise3 in Hin].
           eapply Forall_forall in Hin; [|done]. by destruct Hin.
    + destruct Hloop as (Hfs2 & Hdom2 & evs2 & Htr2 & Hevs2).
      exists (evs1 ++ evs2 ++ evs3). split_and!.
      * by rewrite Htr3, Htr2, Htr1, <-!app_assoc.
      * intros p j [Hin|[Hin|Hin]%elem_of_app]%elem_of_app;
          [by apply Hnotext1 in Hin| |by apply Hnotext3 in Hin].
        by eapply loop_event_no_write_text in Hin.
      * rewrite Hfs3, Hfs2, Hfs1; done.
      * intros _ writer Hin. split; [by apply Hclosed|].
        rewrite !elem_of_app. right. right. apply Hclose.
        -- by rewrite fmap_reverse, reverse_Permutation.
        -- by apply elem_of_reverse.
        -- rewrite Hdom2, Hdom1. apply elem_of_union. right.
           apply elem_of_list_to_set. by apply list_elem_of_fmap_2.
  - exists (evs1 ++ evs3). split_and!.
    + by rewrite Htr3, Htr1, <-!app_assoc.
    + intros p j [Hin|Hin]%elem_of_app;
        [by apply Hnotext1 in Hin | by apply Hnotext3 in Hin].
    + rewrite Hfs3, Hfs1; done.
    + intros (n & rec & [Hin|Hin]%elem_of_app);
        [by apply Hnoraise1 in Hin | by apply Hnoraise3 in Hin].
Qed.

(** ** The whole run *)

Lemma extract_data_to_csv_run env articles_dir output_dir flag w r w' :
  extract_data_to_csv env articles_dir output_dir flag w = (r, w') →
  ∃ evs, w_trace w' = w_trace w ++ evs ∧
    match r with
    | Ok v =>
        ∃ o recs,
          resolved_output_dir articles_dir output_dir flag = Some o ∧
          v = (o, 0%Z) ∧ completed env o recs w w' evs
    | Raise e =>
        aborted env (resolved_output_dir articles_dir output_dir flag) w w' evs
    end.
Proof.
  unfold extract_data_to_csv.
  intros [([] & w0 & Hassert & Hrun)|(e & Hassert & ->)]%bind_inv;
    apply assert_exists_run in Hassert as ->; last first.
  { exists []. rewrite app_nil_r. split; [done|].
    split_and!; [by intros ?? ?%elem_of_nil|done|].
    by intros (? & ? & ?%elem_of_nil). }
  revert Hrun.
  intros [(o & w1 & Hdir & Hrun)|(e & Hdir & ->)]%bind_inv;
    apply get_output_dir_run in Hdir
      as (Hopen1 & (evs1 & Htr1 & Hevs1) & Hfs1 & Ho); last first.
  { exists evs1. split; [done|].
    destruct (scope_event_quiet _ Hevs1) as (_ & Hnoraise & Hnotext).
    split_and!; [done| |].
    - intros o' Ho'. eapply Hfs1; [done|].
      unfold Path.joinpath. rewrite length_app. simpl. lia.
    - intros (n & rec & Hin). by apply Hnoraise in Hin. }
  revert Hrun.
  intros [([] & w2 & Hlog & Hrun)|(e & Hlog & ->)]%bind_inv; [|done].
  injection Hlog as <-. revert Hrun.
  destruct (scope_event_quiet _ Hevs1) as (Hcalls1 & Hnoraise1 & Hnotext1).
  assert (∀ p, length o < length p → fs_lookup (w_fs w1) p = fs_lookup (w_fs w) p)
    as Hframe1 by eauto.
  assert (length o < length (Path.joinpath o "info.json")) as Hlen.
  { unfold Path.joinpath. rewrite length_app. simpl. lia. }
  intros [(n & w2 & Hscope & Hrun)|(e & Hscope & ->)]%bind_inv;
    apply streaming_scope_run in Hscope as (evs2 & Htr2 & Hnotext2 & Hfs2 & Hres);
    simpl in Htr2, Hfs2.
  - destruct Hres as (recs & -> & Hkeys & Hcalls2 & Hnoraise2 & Hclosed).
    revert Hrun.
    intros [([] & w3 & Htext & Hrun)|(e & Htext & ->)]%bind_inv;
      apply write_text_run in Htext; subst.
    + injection Hrun as <- <-. simpl.
      exists (evs1 ++ [LogInfo (Extracting articles_dir o)] ++ evs2 ++
              [EvWriteText (Path.joinpath o "info.json")
                 (JObject [("n_articles", Z.of_nat (length recs))]);
               LogInfo (DoneExtracting o)]).
      split; [by rewrite Htr2, Htr1, <-!app_assoc|].
      exists o, recs. split_and!; [done..|]. unfold completed. split_and!; [done| | | |done].
      * by rewrite !write_calls_app, Hcalls1, Hcalls2, app_nil_r.
      * intros n rec. rewrite !elem_of_app, !elem_of_cons, elem_of_nil.
        intros [Hin|[[?|[]]|[Hin|[?|[?|[]]]]]]; try done.
        -- by apply Hnoraise1 in Hin.
        -- by apply Hnoraise2 in Hin.
      * apply fs_lookup_write_eq.
    + exists (evs1 ++ [LogInfo (Extracting articles_dir o)] ++ evs2).
      split; [by rewrite Htr2, Htr1, <-!app_assoc|]. split_and!.
      * intros p j. rewrite !elem_of_app, elem_of_cons, elem_of_nil.
        intros [Hin|[[?|[]]|Hin]]; try done.
        -- by apply Hnotext1 in Hin.
        -- by apply Hnotext2 in Hin.
      * intros o' Ho'. assert (o' = o) as -> by congruence.
        rewrite Hfs2. by apply Hframe1.
      * intros (n & rec & Hin). exfalso. revert Hin.
        rewrite !elem_of_app, elem_of_cons, elem_of_nil.
        intros [Hin|[[?|[]]|Hin]]; try done.
        -- by apply Hnoraise1 in Hin.
        -- by apply Hnoraise2 in Hin.
  - exists (evs1 ++ [LogInfo (Extracting articles_dir o)] ++ evs2).
    split; [by rewrite Htr2, Htr1, <-!app_assoc|]. split_and!.
    + intros p j. rewrite !elem_of_app, elem_of_cons, elem_of_nil.
      intros [Hin|[[?|[]]|Hin]]; try done.
      * by apply Hnotext1 in Hin.
      * by apply Hnotext2 in Hin.
    + intros o' Ho'. assert (o' = o) as -> by congruence.
      rewrite Hfs2. by apply Hframe1.
    + intros (n & rec & Hin). exists o. split; [done|].
      intros writer Hwriter. destruct (Hres) with (writer := writer) as [Hclosed Hclose];
        [|done|].
      * exists n, rec. revert Hin. rewrite !elem_of_app, elem_of_cons, elem_of_nil.
        intros [Hin|[[?|[]]|Hin]]; try done. by apply Hnoraise1 in Hin.
      * split; [done|]. rewrite !elem_of_app. by right; right.
Qed.


(** ** Consumers of the generators and the keys of an Article Record *)

Lemma try_finally_ext {A} (body1 body2 : M A) cleanup w :
  body1 w = body2 w → try_finally body1 cleanup w = try_finally body2 cleanup w.
Proof. intros Hbody. unfold try_finally. by rewrite Hbody. Qed.

Section consumers.
Context (env : Env) {L : Type}.

(** A traversal only depends on what its consumer does. *)
Lemma visit_file_ext subdir article_file (y1 y2 : Element → L → M L) n f s w :
  (∀ a s w, y1 a s w = y2 a s w) →
  visit_file env subdir article_file y1 n f s w
  = visit_file env subdir article_file y2 n f s w.
Proof.
  intros Hext. unfold visit_file, mbind at 1 3, M_bind at 1 3, get_fs.
  apply try_finally_ext.
  destruct (parse_file env (w_fs w) article_file) as [article|]; [|done].
  unfold mbind, M_bind. by rewrite Hext.
Qed.

Lemma iter_files_ext subdir files (y1 y2 : Element → L → M L) n f s w :
  (∀ a s w, y1 a s w = y2 a s w) →
  iter_files env subdir files y1 n f s w = iter_files env subdir files y2 n f s w.
Proof.
  intros Hext. revert n f s w.
  induction files as [|article_file files IH]; intros n f s w; cbn [iter_files];
    [done|].
  unfold mbind, M_bind. rewrite (visit_file_ext _ _ y1 y2) by done.
  destruct (visit_file _ _ _ y2 _ _ _ _) as [[[f' s']|e] w1]; [apply IH | done].
Qed.

Lemma iter_subdirs_ext subdirs (y1 y2 : Element → L → M L) n f s w :
  (∀ a s w, y1 a s w = y2 a s w) →
  iter_subdirs env subdirs y1 n f s w = iter_subdirs env subdirs y2 n f s w.
Proof.
  intros Hext. revert n f s w.
  induction subdirs as [|subdir subdirs IH]; intros n f s w; simpl; [done|].
  unfold mbind, M_bind, get_fs.
  rewrite (iter_files_ext _ _ y1 y2) by done.
  destruct (iter_files _ _ _ y2 _ _ _ _) as [[[[n' f'] s']|e] w1]; [|done].
  apply IH.
Qed.

Lemma iter_articles_ext articles_dir (y1 y2 : Element → L → M L) s w :
  (∀ a s w, y1 a s w = y2 a s w) →
  iter_articles env articles_dir y1 s w = iter_articles env articles_dir y2 s w.
Proof.
  intros Hext. unfold iter_articles, iter_articles_locals, mbind, M_bind, get_fs.
  destruct (assert_exists articles_dir w) as [[[]|e] w1]; [|done].
  by rewrite (iter_subdirs_ext _ y1 y2).
Qed.
End consumers.

Lemma assemble_keys env article w rec w' :
  assemble (data_extractors env) article ∅ w = (Ok rec, w') →
  dom rec = registered_names.
Proof.
  intros Hrun.
  assert (hoare (λ _, True) (assemble (data_extractors env) article ∅)
            (λ rec _, True ∧ dom rec = dom (∅ : ArticleRecord) ∪
                        list_to_set (name <$> data_extractors env))
            (λ _ _, True)) as Hassemble.
  { by apply (hoare_assemble env (L := ()) (λ _ _, True) (λ _ _, True)). }
  destruct (hoare_run _ _ _ _ _ _ _ Hassemble Logic.I Hrun) as [_ Hdom].
  rewrite Hdom. unfold registered_names. set_solver.
Qed.

(** ** The text extractor *)

Lemma extract_parts_present transformed part_names result w :
  (∀ part_name, part_name ∈ part_names → is_Some (find transformed part_name)) →
  extract_parts transformed part_names result w
  = (Ok (foldl (λ result part_name,
                  <[part_name := value_of_text (find transformed part_name ≫= text)]>
                    result)
               result part_names), w).
Proof.
  revert result. induction part_names as [|part_name rest IH]; intros result Hall;
    simpl; [done|].
  destruct (Hall part_name) as [elem Helem]; [by left|].
  rewrite Helem. simpl. apply IH. intros f Hf. apply Hall. by right.
Qed.

(** ** The order of the traversal *)

Lemma parse_failures_app evs1 evs2 :
  parse_failures (evs1 ++ evs2) = parse_failures evs1 ++ parse_failures evs2.
Proof. apply omap_app. Qed.

Lemma omap_cons_Some {A B} (f : A → option B) x y l :
  f x = Some y → omap f (x :: l) = y :: omap f l.
Proof. intros Hx. simpl. by rewrite Hx. Qed.

Lemma omap_cons_None {A B} (f : A → option B) x l :
  f x = None → omap f (x :: l) = omap f l.
Proof. intros Hx. simpl. by rewrite Hx. Qed.

Section collecting.
Context (env : Env).

Lemma iter_files_collect_cons subdir article_file files n f acc w :
  iter_files env subdir (article_file :: files) collect n f acc w
  = match parse_file env (w_fs w) article_file with
    | Some article =>
        iter_files env subdir files collect (S n) f (acc ++ [article])
          (progress subdir (S n) f w)
    | None =>
        iter_files env subdir files collect (S n) (S f) acc
          (progress subdir (S n) (S f)
             (add_event (LogException (FailedToParse article_file)) w))
    end.
Proof.
  cbn [iter_files]. unfold visit_file, try_finally, progress.
  cbv beta iota delta [mbind M_bind mret M_ret get_fs log_info log_exception emit collect].
  destruct (parse_file env (w_fs w) article_file); cbn [fmap option_fmap option_map default fst];
    by case_bool_decide.
Qed.

Lemma progress_run subdir n f w :
  w_fs (progress subdir n f w) = w_fs w ∧
  w_open (progress subdir n f w) = w_open w ∧
  ∃ evs, w_trace (progress subdir n f w) = w_trace w ++ evs ∧
         Forall is_log evs ∧ parse_failures evs = [].
Proof.
  unfold progress. case_bool_decide; simpl; split_and!; try done.
  - eexists [_]. split_and!; [done| |done]. by repeat constructor.
  - exists []. by rewrite app_nil_r.
Qed.

Lemma iter_files_collect subdir files n f acc w :
  traversed env files n f acc w
    (iter_files env subdir files collect n f acc w).1
    (iter_files env subdir files collect n f acc w).2.
Proof.
  revert n f acc w. induction files as [|article_file files IH]; intros n f acc w.
  - unfold traversed. simpl. split_and!; [|done..|].
    + by rewrite !Nat.add_0_r, app_nil_r.
    + exists []. by rewrite app_nil_r.
  - rewrite iter_files_collect_cons.
    destruct (parse_file env (w_fs w) article_file) as [article|] eqn:Hparse.
    + destruct (progress_run subdir (S n) f w)
        as (Hfs1 & Hopen1 & evs1 & Htr1 & Hevs1 & Hfail1).
      destruct (IH (S n) f (acc ++ [article]) (progress subdir (S n) f w))
        as (Hr & Hfs & Hopen & evs & Htr & Hevs & Hfail).
      rewrite Hfs1 in Hr, Hfs, Hfail. rewrite Hopen1 in Hopen. rewrite Htr1 in Htr.
      unfold traversed. rewrite filter_cons, decide_False by (unfold unparsable; congruence).
      rewrite (omap_cons_Some _ _ _ _ Hparse). cbn [length].
      split_and!; [|done..|].
      * rewrite Hr, <-app_assoc. do 2 f_equal. f_equal. lia.
      * exists (evs1 ++ evs). rewrite Htr, <-app_assoc, parse_failures_app, Hfail1.
        split_and!; [done|by apply Forall_app|done].
    + destruct (progress_run subdir (S n) (S f)
                  (add_event (LogException (FailedToParse article_file)) w))
        as (Hfs1 & Hopen1 & evs1 & Htr1 & Hevs1 & Hfail1).
      simpl in Hfs1, Hopen1, Htr1.
      destruct (IH (S n) (S f) acc
                  (progress subdir (S n) (S f)
                     (add_event (LogException (FailedToParse article_file)) w)))
        as (Hr & Hfs & Hopen & evs & Htr & Hevs & Hfail).
      rewrite Hfs1 in Hr, Hfs, Hfail. rewrite Hopen1 in Hopen. rewrite Htr1 in Htr.
      unfold traversed. rewrite filter_cons, decide_True by done.
      rewrite (omap_cons_None _ _ _ Hparse). cbn [length].
      split_and!; [|done..|].
      * rewrite Hr. do 2 f_equal. f_equal; lia.
      * exists (LogException (FailedToParse article_file) :: evs1 ++ evs).
        rewrite Htr, <-!app_assoc. split_and!; [done| |].
        -- constructor; [done|]. by apply Forall_app.
        -- change (parse_failures (LogException (FailedToParse article_file) :: evs1 ++ evs))
             with (article_file :: parse_failures (evs1 ++ evs)).
           by rewrite parse_failures_app, Hfail1, Hfail.
Qed.

Lemma iter_subdirs_collect_cons {L} subdir subdirs (yield : Element → L → M L) n f s w :
  iter_subdirs env (subdir :: subdirs) yield n f s w
  = match iter_files env subdir (shard_files (w_fs w) subdir) yield n f s w with
    | (Ok (n', f', s'), w1) => iter_subdirs env subdirs yield n' f' s' w1
    | (Raise e, w1) => (Raise e, w1)
    end.
Proof.
  cbn [iter_subdirs]. unfold mbind, M_bind, get_fs, shard_files.
  by destruct (iter_files _ _ _ _ _ _ _ _) as [[[[n' f'] s']|e] w1].
Qed.

Lemma iter_subdirs_collect subdirs n f acc w :
  traversed env (subdirs ≫= shard_files (w_fs w)) n f acc w
    (iter_subdirs env subdirs collect n f acc w).1
    (iter_subdirs env subdirs collect n f acc w).2.
Proof.
  revert n f acc w. induction subdirs as [|subdir subdirs IH]; intros n f acc w.
  - unfold traversed. simpl. split_and!; [|done..|].
    + by rewrite !Nat.add_0_r, app_nil_r.
    + exists []. by rewrite app_nil_r.
  - rewrite iter_subdirs_collect_cons.
    pose proof (iter_files_collect subdir (shard_files (w_fs w) subdir) n f acc w)
      as (Hr1 & Hfs1 & Hopen1 & evs1 & Htr1 & Hevs1 & Hfail1).
    destruct (iter_files _ _ _ _ _ _ _ _) as [r1 w1]. simpl in Hr1, Hfs1, Hopen1, Htr1.
    subst r1.
    destruct (IH (n + length (shard_files (w_fs w) subdir))%nat
                (f + length (filter (unparsable env (w_fs w)) (shard_files (w_fs w) subdir)))%nat
                (acc ++ omap (parse_file env (w_fs w)) (shard_files (w_fs w) subdir)) w1)
      as (Hr & Hfs & Hopen & evs & Htr & Hevs & Hfail).
    rewrite Hfs1 in *.
    unfold traversed. rewrite bind_cons, filter_app, omap_app, !length_app.
    split_and!; [|congruence..|].
    + rewrite Hr, <-app_assoc. do 2 f_equal. f_equal; lia.
    + exists (evs1 ++ evs). rewrite Htr, Htr1, <-app_assoc, parse_failures_app.
      rewrite Hfail1, Hfail. split_and!; [done|by apply Forall_app|done].
Qed.

(** A traversal of an existing corpus root comes to its end; it visits
    the article files in order, counts them, yields the documents of those
    that parse and logs the others as failures. *)
Lemma iter_articles_collect articles_dir w :
  is_Some (fs_lookup (w_fs w) articles_dir) →
  traversed env (article_files (w_fs w) articles_dir) 0 0 [] w
    (iter_articles_locals env articles_dir collect [] w).1
    (iter_articles_locals env articles_dir collect [] w).2.
Proof.
  intros Hexists%assert_exists_present.
  unfold iter_articles_locals, mbind at 1 3, M_bind at 1 3.
  rewrite Hexists. unfold mbind, M_bind, get_fs.
  apply iter_subdirs_collect.
Qed.
End collecting.

(** ** Independence of the enumeration order *)

Lemma fs_lookup_None fs p : fs_lookup fs p = None ↔ p ∉ fs.*1.
Proof.
  induction fs as [|[q n] fs IH]; simpl.
  - split; [intros _ ?%elem_of_nil; done | done].
  - rewrite not_elem_of_cons. destruct (decide (q = p)) as [->|Hne].
    + split; [done | by intros [? _]].
    + rewrite IH. naive_solver.
Qed.

Lemma fs_lookup_Some fs p n : fs_lookup fs p = Some n → (p, n) ∈ fs.
Proof.
  induction fs as [|[q m] fs IH]; simpl; [done|].
  destruct (decide (q = p)) as [->|Hne].
  - intros [= ->]. by left.
  - intros ?. right. by apply IH.
Qed.

Lemma fs_lookup_elem_of fs p n :
  NoDup fs.*1 → (p, n) ∈ fs → fs_lookup fs p = Some n.
Proof.
  induction fs as [|[q m] fs IH]; simpl.
  - by intros _ ?%elem_of_nil.
  - intros [Hq Hnodup]%NoDup_cons [[= -> ->]|Hin]%elem_of_cons.
    + by rewrite decide_True.
    + destruct (decide (q = p)) as [->|Hne]; [|by apply IH].
      destruct Hq. by apply (list_elem_of_fmap_2 fst) in Hin.
Qed.

(** With one entry per path, a lookup does not depend on the order of the
    entries. *)
Lemma fs_lookup_Permutation fs1 fs2 p :
  NoDup fs1.*1 → fs1 ≡ₚ fs2 → fs_lookup fs1 p = fs_lookup fs2 p.
Proof.
  intros Hnodup Hperm.
  assert (NoDup fs2.*1) as Hnodup2 by by rewrite <-Hperm.
  destruct (fs_lookup fs1 p) as [n|] eqn:H1.
  - apply fs_lookup_Some in H1. rewrite Hperm in H1.
    symmetry. by apply fs_lookup_elem_of.
  - apply fs_lookup_None in H1. rewrite Hperm in H1.
    symmetry. by apply fs_lookup_None.
Qed.

Lemma sorted_Permutation l1 l2 : l1 ≡ₚ l2 → sorted l1 = sorted l2.
Proof.
  intros Hperm. unfold sorted.
  apply (Sorted_unique Path.le); [apply (Sorted_merge_sort Path.le)..|].
  by rewrite !merge_sort_Permutation.
Qed.

Lemma glob_Permutation fs1 fs2 d pattern :
  NoDup fs1.*1 → fs1 ≡ₚ fs2 → glob fs1 d pattern ≡ₚ glob fs2 d pattern.
Proof.
  intros Hnodup Hperm. unfold glob, fs_is_dir.
  rewrite (fs_lookup_Permutation fs1 fs2) by done.
  destruct (fs_lookup fs2 d) as [[]|]; [|done..]. by rewrite Hperm.
Qed.

Lemma traversal_Permutation env fs1 fs2 articles_dir :
  NoDup fs1.*1 → fs1 ≡ₚ fs2 →
  article_files fs1 articles_dir = article_files fs2 articles_dir ∧
  ∀ p, parse_file env fs1 p = parse_file env fs2 p.
Proof.
  intros Hnodup Hperm. split.
  - unfold article_files, shard_dirs, shard_files.
    assert (∀ subdir, sorted (glob fs1 subdir pat_pmcid_xml)
                      = sorted (glob fs2 subdir pat_pmcid_xml)) as Hfiles.
    { intros subdir. by apply sorted_Permutation, glob_Permutation. }
    rewrite (sorted_Permutation _
               (filter (λ f, fs_is_dir fs2 f = true) (glob fs2 articles_dir pat_any))).
    + by apply list_bind_ext.
    + rewrite (glob_Permutation fs1 fs2) by done.
      erewrite list_filter_iff; [done|]. intros f. unfold fs_is_dir.
      by rewrite (fs_lookup_Permutation fs1 fs2).
  - intros p. unfold parse_file. by rewrite (fs_lookup_Permutation fs1 fs2).
Qed.

Lemma is_child_of_joinpath d p :
  is_child_of d p → p = Path.joinpath d (Path.name p).
Proof.
  intros [Hne <-]. destruct (exists_last Hne) as (d & a & ->).
  unfold Path.parent, Path.name, Path.joinpath.
  by rewrite removelast_last, last_snoc.
Qed.

Lemma glob_children fs d pattern p :
  p ∈ glob fs d pattern → is_child_of d p ∧ pattern (Path.name p) = true.
Proof.
  unfold glob. destruct (fs_is_dir fs d); [|by intros ?%elem_of_nil].
  by intros [? _]%list_elem_of_filter.
Qed.

(** A sorted list of entries of one directory is sorted by name. *)
Lemma sorted_by_name d l :
  Forall (is_child_of d) l →
  StronglySorted String.le (Path.name <$> sorted l) ∧ sorted l ≡ₚ l.
Proof.
  intros Hchildren. split; [|apply merge_sort_Permutation].
  assert (Forall (is_child_of d) (sorted l)) as Hsorted_children.
  { unfold sorted. by rewrite merge_sort_Permutation. }
  assert (StronglySorted Path.le (sorted l)) as Hsorted.
  { apply (StronglySorted_merge_sort Path.le). }
  induction Hsorted as [|p ps Hps IH Hle]; [constructor|].
  apply Forall_cons in Hsorted_children as [Hp Hchildren_ps].
  rewrite fmap_cons. constructor; [by apply IH|].
  apply Forall_fmap, Forall_forall. intros q Hq. simpl.
  apply (path_le_joinpath d).
  rewrite <-(is_child_of_joinpath d p), <-(is_child_of_joinpath d q);
    [|by eapply Forall_forall in Hchildren_ps|done].
  by eapply Forall_forall in Hle.
Qed.

Lemma shard_dirs_sorted fs articles_dir :
  StronglySorted String.le (Path.name <$> shard_dirs fs articles_dir) ∧
  shard_dirs fs articles_dir
  ≡ₚ filter (λ f, fs_is_dir fs f = true) (glob fs articles_dir pat_any).
Proof.
  apply (sorted_by_name articles_dir), Forall_forall.
  intros p [_ Hp]%list_elem_of_filter. by apply glob_children in Hp as [? _].
Qed.

Lemma shard_files_sorted fs subdir :
  StronglySorted String.le (Path.name <$> shard_files fs subdir) ∧
  shard_files fs subdir ≡ₚ glob fs subdir pat_pmcid_xml.
Proof.
  apply (sorted_by_name subdir), Forall_forall.
  intros p Hp. by apply glob_children in Hp as [? _].
Qed.

Lemma iter_articles_collect_result env articles_dir w :
  is_Some (fs_lookup (w_fs w) articles_dir) →
  (iter_articles env articles_dir collect [] w).1
  = Ok (omap (parse_file env (w_fs w)) (article_files (w_fs w) articles_dir)).
Proof.
  intros Hexists.
  destruct (iter_articles_collect env articles_dir w Hexists) as (Hr & _).
  unfold iter_articles, mbind, M_bind.
  destruct (iter_articles_locals _ _ _ _ _) as [r w']. simpl in Hr. by subst r.
Qed.

(** ** One more file that does not parse *)

Lemma fs_lookup_app_fresh fs bad n p :
  fs_lookup fs bad = None →
  fs_lookup (fs ++ [(bad, n)]) p
  = if decide (bad = p) then Some n else fs_lookup fs p.
Proof.
  induction fs as [|[q m] fs IH]; simpl; [done|].
  destruct (decide (q = bad)) as [->|Hq]; [done|]. intros Hbad.
  destruct (decide (q = p)) as [->|Hqp].
  - by rewrite decide_False.
  - by apply IH.
Qed.

Section one_more_file.
Context (env : Env) (fs : FS) (bad : Path.t) (content : string).
Hypothesis bad_fresh : fs_lookup fs bad = None.
Hypothesis bad_unparsable : etree_parse env content = None.

Local Abbreviation fs' := (fs ++ [(bad, NFile (XmlText content))]).

Lemma fs_is_dir_one_more p : fs_is_dir fs' p = fs_is_dir fs p.
Proof.
  unfold fs_is_dir. rewrite fs_lookup_app_fresh by done.
  destruct (decide (bad = p)) as [<-|]; [by rewrite bad_fresh | done].
Qed.

Lemma parse_file_one_more p : parse_file env fs' p = parse_file env fs p.
Proof.
  unfold parse_file. rewrite fs_lookup_app_fresh by done.
  destruct (decide (bad = p)) as [<-|]; [by rewrite bad_fresh | done].
Qed.

Lemma glob_one_more d pattern :
  glob fs' d pattern = glob fs d pattern ∨
  glob fs' d pattern = glob fs d pattern ++ [bad].
Proof.
  unfold glob. rewrite fs_is_dir_one_more. destruct (fs_is_dir fs d); [|by left].
  rewrite fmap_app, filter_app. simpl. rewrite filter_cons, filter_nil.
  case_decide; [by right | left; by rewrite app_nil_r].
Qed.

Lemma shard_dirs_one_more articles_dir :
  shard_dirs fs' articles_dir = shard_dirs fs articles_dir.
Proof.
  unfold shard_dirs.
  assert (filter (λ f, fs_is_dir fs' f = true) (glob fs' articles_dir pat_any)
          = filter (λ f, fs_is_dir fs f = true) (glob fs articles_dir pat_any))
    as ->; [|done].
  rewrite (list_filter_iff _ (λ f, fs_is_dir fs f = true))
    by (intros f; by rewrite fs_is_dir_one_more).
  destruct (glob_one_more articles_dir pat_any) as [->| ->]; [done|].
  rewrite filter_app, filter_cons, filter_nil, decide_False, app_nil_r; [done|].
  unfold fs_is_dir. by rewrite bad_fresh.
Qed.

(** A sorted list with one more entry is the sorted list with that entry
    put in. *)
Lemma sorted_one_more l x :
  ∃ l1 l2, sorted (l ++ [x]) = l1 ++ x :: l2 ∧ sorted l = l1 ++ l2.
Proof.
  assert (x ∈ sorted (l ++ [x])) as Hin.
  { unfold sorted. rewrite merge_sort_Permutation. set_solver. }
  apply list_elem_of_split in Hin as (l1 & l2 & Hsplit).
  exists l1, l2. split; [done|].
  assert (StronglySorted Path.le (l1 ++ x :: l2)) as Hsorted.
  { rewrite <-Hsplit. apply (StronglySorted_merge_sort Path.le). }
  apply (StronglySorted_unique Path.le).
  - apply (StronglySorted_merge_sort Path.le).
  - apply StronglySorted_app in Hsorted as (Hle & Hl1 & [Hx Hl2]%StronglySorted_cons).
    apply StronglySorted_app_2; [|done..].
    intros x1 x2 Hx1 Hx2. apply Hle; [done|]. by right.
  - apply (inj (x ::.)).
    unfold sorted in *. rewrite merge_sort_Permutation.
    rewrite Permutation_middle, <-Hsplit, merge_sort_Permutation.
    by rewrite Permutation_app_comm.
Qed.

Lemma shard_files_one_more subdir :
  omap (parse_file env fs') (shard_files fs' subdir)
  = omap (parse_file env fs) (shard_files fs subdir).
Proof.
  assert (omap (parse_file env fs') (shard_files fs' subdir)
          = omap (parse_file env fs) (shard_files fs' subdir)) as ->.
  { apply list_omap_ext, Forall2_same_length_lookup. split; [done|].
    intros i p q Hp Hq. simplify_eq. apply parse_file_one_more. }
  unfold shard_files. destruct (glob_one_more subdir pat_pmcid_xml) as [->| ->]; [done|].
  destruct (sorted_one_more (glob fs subdir pat_pmcid_xml) bad)
    as (l1 & l2 & -> & ->).
  rewrite !omap_app. f_equal. apply omap_cons_None.
  unfold parse_file. by rewrite bad_fresh.
Qed.

(** The documents that a traversal yields are the same with and without
    the file that does not parse. *)
Lemma article_files_one_more articles_dir :
  omap (parse_file env fs') (article_files fs' articles_dir)
  = omap (parse_file env fs) (article_files fs articles_dir).
Proof.
  unfold article_files. rewrite shard_dirs_one_more.
  induction (shard_dirs fs articles_dir) as [|subdir subdirs IH]; [done|].
  by rewrite !bind_cons, !omap_app, IH, shard_files_one_more.
Qed.
End one_more_file.

(** ** The output directory *)

Lemma prefixes_from_longer above below p :
  p ∈ prefixes_from above below → length above < length p.
Proof.
  revert above. induction below as [|c below IH]; intros above; simpl.
  - by intros ?%elem_of_nil.
  - intros [->|Hin%IH]%elem_of_cons; unfold Path.joinpath in *;
      rewrite ?length_app in *; simpl in *; lia.
Qed.

(** [mkdir] returns if and only if no file is in its way; the directories
    on the way are then in place, and nothing else has changed. *)
Lemma mkdir_from_spec above below w :
  match mkdir_from above below w with
  | (Ok _, w') =>
      (∀ p d, p ∈ prefixes_from above below → fs_lookup (w_fs w) p ≠ Some (NFile d)) ∧
      (∀ p, fs_lookup (w_fs w') p
            = if decide (p ∈ prefixes_from above below) then Some NDir
              else fs_lookup (w_fs w) p)
  | (Raise e, w') =>
      ∃ p d, p ∈ prefixes_from above below ∧ fs_lookup (w_fs w) p = Some (NFile d) ∧
             e = (if decide (p = above ++ below)
                  then FileExistsError p else NotADirectoryError p) ∧
             (∀ q, is_Some (fs_lookup (w_fs w) q) ∨ q ∉ prefixes_from above below →
                   fs_lookup (w_fs w') q = fs_lookup (w_fs w) q)
  end.
Proof.
  revert above w. induction below as [|c below IH]; intros above w.
  - cbn [mkdir_from prefixes_from]. unfold mret, M_ret.
    split; [by intros ?? ?%elem_of_nil|]. intros p.
    by rewrite decide_False by apply not_elem_of_nil.
  - cbn [mkdir_from prefixes_from].
    set (p := Path.joinpath above c).
    assert (∀ q, q ∈ prefixes_from p below → q ≠ p) as Hlonger.
    { intros q Hq%prefixes_from_longer ->. lia. }
    assert (p ++ below = above ++ c :: below) as Happ.
    { unfold p, Path.joinpath. by rewrite <-app_assoc. }
    cbv beta iota delta [mbind M_bind get_fs].
    destruct (fs_lookup (w_fs w) p) as [[|d]|] eqn:Hp;
      cbv beta iota delta [mret M_ret raise set_fs emit mbind M_bind].
    + specialize (IH p w). destruct (mkdir_from p below w) as [[[]|e] w'].
      * destruct IH as [Hfree Hfs]. split.
        -- intros q d' [->|Hq]%elem_of_cons; [congruence|by apply Hfree].
        -- intros q. rewrite Hfs. repeat case_decide; try done.
           ++ exfalso. set_solver.
           ++ apply elem_of_cons in H0 as [->|?]; done.
      * destruct IH as (q & d & Hq & Hfile & -> & Hkeep).
        exists q, d. rewrite Happ. split_and!; [by right|done..|].
        intros q' [Hq'|Hq']; apply Hkeep; [by left|].
        right. intros Hin. apply Hq'. by right.
    + exists p, d. split_and!; [by left|done| |done].
      destruct below as [|c' below].
      * rewrite decide_True; [done|]. by rewrite <-Happ, app_nil_r.
      * rewrite decide_False; [done|]. rewrite <-Happ. intros Heq.
        apply (f_equal length) in Heq. rewrite length_app in Heq. simpl in Heq. lia.
    + specialize (IH p (MkWorld (fs_write p NDir (w_fs w)) (w_open w)
                          (w_trace w ++ [EvMkdir p]))).
      unfold add_event. simpl.
      destruct (mkdir_from p below _) as [[[]|e] w']; simpl in IH.
      * destruct IH as [Hfree Hfs]. split.
        -- intros q d' [->|Hq]%elem_of_cons; [congruence|].
           rewrite <-(fs_lookup_write_ne p q NDir); [by apply Hfree|].
           intros ->. by eapply Hlonger.
        -- intros q. rewrite Hfs. repeat case_decide; try done.
           ++ exfalso. set_solver.
           ++ apply elem_of_cons in H0 as [->|?]; [|done].
              apply fs_lookup_write_eq.
           ++ apply fs_lookup_write_ne. set_solver.
      * destruct IH as (q & d & Hq & Hfile & -> & Hkeep).
        exists q, d. rewrite Happ.
        rewrite fs_lookup_write_ne in Hfile by (intros ->; by eapply Hlonger).
        split_and!; [by right|done..|].
        intros q' Hq'.
        assert (p ≠ q') as Hne.
        { intros <-. destruct Hq' as [Hq'|Hq'].
          - rewrite Hp in Hq'. by destruct Hq'.
          - apply Hq'. by left. }
        rewrite Hkeep; [by apply fs_lookup_write_ne|].
        destruct Hq' as [Hq'|Hq'].
        -- left. by rewrite fs_lookup_write_ne.
        -- right. intros Hin. apply Hq'. by right.
Qed.

Lemma elem_of_prefixes_from above below p :
  p ∈ prefixes_from above below ↔
  ∃ q, q ≠ [] ∧ q `prefix_of` below ∧ p = above ++ q.
Proof.
  revert above. induction below as [|c below IH]; intros above; simpl.
  - split; [by intros ?%elem_of_nil|].
    intros (q & Hq & Hpre%prefix_nil_inv & _). done.
  - rewrite elem_of_cons, IH. unfold Path.joinpath. split.
    + intros [->|(q & Hq & Hpre & ->)].
      * exists [c]. split_and!; [done| |done]. by apply prefix_cons, prefix_nil.
      * exists (c :: q). split_and!; [done|by apply prefix_cons|].
        by rewrite <-app_assoc.
    + intros (q & Hq & Hpre & ->). destruct q as [|c' q]; [done|].
      apply prefix_cons_inv_1 in Hpre as Hc. subst c'.
      apply prefix_cons_inv_2 in Hpre.
      destruct q as [|c' q]; [by left|]. right.
      exists (c' :: q). split_and!; [done..|]. by rewrite <-app_assoc.
Qed.

Lemma elem_of_prefixes p o :
  p ∈ prefixes_from [] o ↔ p ≠ [] ∧ p `prefix_of` o.
Proof.
  rewrite elem_of_prefixes_from. simpl. naive_solver.
Qed.

(** Where every directory on the way is in place, [mkdir] does nothing. *)
Lemma mkdir_from_in_place above below w :
  (∀ p, p ∈ prefixes_from above below → fs_lookup (w_fs w) p = Some NDir) →
  mkdir_from above below w = (Ok (), w).
Proof.
  revert above. induction below as [|c below IH]; intros above Hdirs; [done|].
  cbn [mkdir_from prefixes_from] in *.
  cbv beta iota delta [mbind M_bind get_fs].
  rewrite (Hdirs (Path.joinpath above c)) by left.
  cbv beta iota delta [mret M_ret].
  apply IH. intros p Hp. apply Hdirs. by right.
Qed.

Lemma resolve_output_dir_inv articles_dir output_dir (flag : bool) w
    (r : result Path.t) w' :
  match output_dir return M Path.t with
  | None =>
      with_name articles_dir
        ("subset_" +:+ (if flag then "articlesWithCoords" else "allArticles")
           +:+ "_extractedData")
  | Some output_dir => mret output_dir
  end w = (r, w') →
  w' = w ∧
  match r with
  | Ok o => resolved_output_dir articles_dir output_dir flag = Some o
  | Raise e =>
      resolved_output_dir articles_dir output_dir flag = None ∧ e = ValueError ∧
      output_dir = None ∧ articles_dir = []
  end.
Proof.
  destruct output_dir as [d|]; simpl.
  - by intros [= <- <-].
  - destruct articles_dir, flag; unfold with_name, raise, mret, M_ret;
      by intros [= <- <-].
Qed.

Lemma get_output_dir_spec articles_dir output_dir flag w :
  match _get_output_dir articles_dir output_dir flag w with
  | (Ok o, w') =>
      resolved_output_dir articles_dir output_dir flag = Some o ∧
      (∀ p d, p ≠ [] → p `prefix_of` o → fs_lookup (w_fs w) p ≠ Some (NFile d)) ∧
      (∀ p, fs_lookup (w_fs w') p
            = if decide (p ≠ [] ∧ p `prefix_of` o) then Some NDir
              else fs_lookup (w_fs w) p)
  | (Raise e, w') =>
      (output_dir = None ∧ articles_dir = [] ∧ e = ValueError ∧ w' = w) ∨
      (∃ o p d,
         resolved_output_dir articles_dir output_dir flag = Some o ∧
         p ≠ [] ∧ p `prefix_of` o ∧ fs_lookup (w_fs w) p = Some (NFile d) ∧
         e = (if decide (p = o) then FileExistsError p else NotADirectoryError p) ∧
         (∀ q, is_Some (fs_lookup (w_fs w) q) ∨ ¬ (q `prefix_of` o) →
               fs_lookup (w_fs w') q = fs_lookup (w_fs w) q))
  end.
Proof.
  unfold _get_output_dir, mbind at 1, M_bind at 1.
  match goal with
  | |- context [match ?m w with _ => _ end] =>
      destruct (m w) as [[o|e] w1] eqn:Hresolve
  end; apply resolve_output_dir_inv in Hresolve as [-> Hres].
  - unfold mkdir, mbind, M_bind.
    pose proof (mkdir_from_spec [] o w) as Hmkdir.
    destruct (mkdir_from [] o w) as [[[]|e] w']; simpl in Hmkdir.
    + destruct Hmkdir as [Hfree Hfs]. split_and!; [done| |].
      * intros p d Hp Hpre. apply Hfree. by apply elem_of_prefixes.
      * intros p. rewrite Hfs.
        destruct (decide (p ∈ prefixes_from [] o)) as [Hin|Hnotin];
          rewrite elem_of_prefixes in *; [by rewrite decide_True|by rewrite decide_False].
    + destruct Hmkdir as (p & d & [Hp Hpre]%elem_of_prefixes & Hfile & -> & Hkeep).
      right. exists o, p, d. split_and!; [done..|].
      intros q [Hq|Hq]; apply Hkeep; [by left|].
      right. rewrite elem_of_prefixes. by intros [_ ?].
  - destruct Hres as (_ & -> & -> & ->). by left.
Qed.

Lemma bind_run_Ok {A B} (m : M A) (k : A → M B) w a w1 r :
  m w = (Ok a, w1) → k a w1 = r → (m ≫= k) w = r.
Proof. intros Hm <-. unfold mbind, M_bind. by rewrite Hm. Qed.

Lemma resolve_output_dir_Some articles_dir output_dir (flag : bool) w o :
  resolved_output_dir articles_dir output_dir flag = Some o →
  match output_dir return M Path.t with
  | None =>
      with_name articles_dir
        ("subset_" +:+ (if flag then "articlesWithCoords" else "allArticles")
           +:+ "_extractedData")
  | Some output_dir => mret output_dir
  end w = (Ok o, w).
Proof.
  destruct output_dir as [d|]; simpl.
  - by intros [= ->].
  - destruct articles_dir as [|c articles_dir]; [done|].
    destruct flag; intros [= <-]; reflexivity.
Qed.

Lemma get_output_dir_in_place articles_dir output_dir flag w o :
  resolved_output_dir articles_dir output_dir flag = Some o →
  (∀ p, p ≠ [] → p `prefix_of` o → fs_lookup (w_fs w) p = Some NDir) →
  _get_output_dir articles_dir output_dir flag w = (Ok o, w).
Proof.
  intros Ho Hdirs. unfold _get_output_dir.
  eapply bind_run_Ok; [by apply resolve_output_dir_Some|].
  eapply bind_run_Ok; [|done].
  apply mkdir_from_in_place. intros p [Hp Hpre]%elem_of_prefixes. by apply Hdirs.
Qed.

Lemma mkdir_from_trace above below w :
  ∃ evs, w_trace (mkdir_from above below w).2 = w_trace w ++ evs ∧
         Forall is_mkdir evs.
Proof.
  revert above w. induction below as [|c below IH]; intros above w.
  - exists []. by rewrite app_nil_r.
  - cbn [mkdir_from]. cbv beta iota delta [mbind M_bind get_fs].
    destruct (fs_lookup (w_fs w) (Path.joinpath above c)) as [[|d]|];
      cbv beta iota delta [mret M_ret raise set_fs emit mbind M_bind].
    + apply IH.
    + exists []. by rewrite app_nil_r.
    + destruct (IH (Path.joinpath above c)
                  (add_event (EvMkdir (Path.joinpath above c))
                     (MkWorld (fs_write (Path.joinpath above c) NDir (w_fs w))
                        (w_open w) (w_trace w)))) as (evs & Htr & Hevs).
      exists (EvMkdir (Path.joinpath above c) :: evs). split.
      * simpl in Htr. rewrite <-app_assoc in Htr. exact Htr.
      * by constructor.
Qed.

Lemma get_output_dir_trace articles_dir output_dir flag w :
  ∃ evs,
    w_trace (_get_output_dir articles_dir output_dir flag w).2 = w_trace w ++ evs ∧
    Forall is_mkdir evs.
Proof.
  unfold _get_output_dir, mbind at 1, M_bind at 1.
  match goal with
  | |- context [match ?m w with _ => _ end] =>
      destruct (m w) as [[o|e] w1] eqn:Hresolve
  end.
  - assert (w1 = w) as ->.
    { destruct output_dir as [d|]; simpl in Hresolve; [by injection Hresolve|].
      destruct articles_dir, flag; unfold with_name, raise, mret, M_ret in Hresolve;
        by simplify_eq. }
    destruct (mkdir_from_trace [] o w) as (evs & Htr & Hevs).
    exists evs. split; [|done]. rewrite <-Htr. unfold mkdir, mbind, M_bind.
    by destruct (mkdir_from [] o w) as [[[]|?] ?].
  - assert (w1 = w) as ->.
    { destruct output_dir as [d|]; simpl in Hresolve; [by injection Hresolve|].
      destruct articles_dir, flag; unfold with_name, raise, mret, M_ret in Hresolve;
        by simplify_eq. }
    exists []. by rewrite app_nil_r.
Qed.

(** ** The progress log *)

Lemma progress_lines_app evs1 evs2 :
  progress_lines (evs1 ++ evs2) = progress_lines evs1 ++ progress_lines evs2.
Proof. apply omap_app. Qed.

Lemma progress_of_app env fs files1 files2 n f :
  progress_of env fs (files1 ++ files2) n f
  = progress_of env fs files1 n f
    ++ progress_of env fs files2 (n + length files1)
         (f + length (filter (unparsable env fs) files1)).
Proof.
  revert n f. induction files1 as [|file files1 IH]; intros n f.
  - simpl. by rewrite !Nat.add_0_r.
  - cbn [progress_of app]. rewrite IH, <-app_assoc, filter_cons. do 2 f_equal.
    case_decide; cbn [length]; f_equal; lia.
Qed.

Lemma progress_of_counts env fs files n f :
  (λ l, l.1.2) <$> progress_of env fs files n f
  = filter (λ k, k mod 20 = 0)%nat (seq (S n) (length files)).
Proof.
  revert n f. induction files as [|file files IH]; intros n f; [done|].
  cbn [progress_of length seq]. rewrite fmap_app, IH, filter_cons.
  by case_decide.
Qed.

Lemma progress_of_elem env fs files n f s k f' :
  (s, k, f') ∈ progress_of env fs files n f →
  (n < k)%nat ∧
  ∃ file, files !! (k - S n)%nat = Some file ∧
          s = Path.name (Path.parent file) ∧
          f' = (f + length (filter (unparsable env fs) (take (k - n) files)))%nat.
Proof.
  revert n f. induction files as [|file files IH]; intros n f.
  - by intros ?%elem_of_nil.
  - cbn [progress_of]. rewrite elem_of_app. intros [Hin|Hin].
    + case_decide; [|by apply elem_of_nil in Hin].
      apply list_elem_of_singleton in Hin. injection Hin as -> -> ->.
      split; [lia|]. exists file. rewrite Nat.sub_diag.
      replace (S n - n)%nat with 1%nat by lia. split_and!; [done..|].
      simpl take. rewrite take_0, filter_cons, filter_nil.
      case_decide; simpl; lia.
    + apply IH in Hin as (Hk & file' & Hfile & -> & ->). split; [lia|].
      exists file'. replace (k - S n)%nat with (S (k - S (S n))) by lia.
      split_and!; [done..|].
      replace (k - n)%nat with (S (k - S n)) by lia.
      simpl take. rewrite filter_cons.
      replace (S (k - S (S n))) with (k - S n)%nat by lia.
      case_decide; simpl; lia.
Qed.

Lemma multiples_of_20_upto N :
  length (filter (λ k, k mod 20 = 0)%nat (seq 1 N)) = (N / 20)%nat.
Proof.
  induction N as [|N IH]; [done|].
  rewrite seq_S, filter_app, length_app, IH, filter_cons, filter_nil.
  pose proof (Nat.div_mod_eq N 20). pose proof (Nat.div_mod_eq (S N) 20).
  pose proof (Nat.mod_upper_bound N 20). pose proof (Nat.mod_upper_bound (S N) 20).
  case_decide; simpl in *; lia.
Qed.

Section progress_log.
Context (env : Env).

Lemma progress_lines_progress subdir n f w :
  ∃ evs, w_trace (progress subdir n f w) = w_trace w ++ evs ∧
         progress_lines evs
         = if decide (n mod 20 = 0)%nat then [(Path.name subdir, n, f)] else [].
Proof.
  unfold progress. case_bool_decide.
  - rewrite decide_True by done. by eexists [_].
  - rewrite decide_False by done. exists []. by rewrite app_nil_r.
Qed.

Lemma iter_files_progress subdir files n f acc w :
  Forall (is_child_of subdir) files →
  ∃ evs,
    w_trace (iter_files env subdir files collect n f acc w).2 = w_trace w ++ evs ∧
    progress_lines evs = progress_of env (w_fs w) files n f.
Proof.
  revert n f acc w. induction files as [|file files IH]; intros n f acc w Hchildren.
  - exists []. by rewrite app_nil_r.
  - apply Forall_cons in Hchildren as [[_ Hparent] Hchildren].
    rewrite iter_files_collect_cons. cbn [progress_of]. rewrite Hparent.
    destruct (parse_file env (w_fs w) file) as [article|] eqn:Hparse.
    + destruct (decide (unparsable env (w_fs w) file)) as [Hun|_];
        [unfold unparsable in Hun; congruence|].
      destruct (progress_lines_progress subdir (S n) f w) as (evs1 & Htr1 & Hlines1).
      destruct (progress_run subdir (S n) f w) as (Hfs1 & _).
      destruct (IH (S n) f (acc ++ [article]) (progress subdir (S n) f w) Hchildren)
        as (evs & Htr & Hlines).
      exists (evs1 ++ evs). rewrite Htr, Htr1, <-app_assoc, progress_lines_app.
      by rewrite Hlines, Hlines1, Hfs1.
    + destruct (decide (unparsable env (w_fs w) file)) as [_|Hun]; [|done].
      set (w0 := add_event (LogException (FailedToParse file)) w).
      destruct (progress_lines_progress subdir (S n) (S f) w0) as (evs1 & Htr1 & Hlines1).
      destruct (progress_run subdir (S n) (S f) w0) as (Hfs1 & _).
      destruct (IH (S n) (S f) acc (progress subdir (S n) (S f) w0) Hchildren)
        as (evs & Htr & Hlines).
      exists (LogException (FailedToParse file) :: evs1 ++ evs).
      rewrite Htr, Htr1. unfold w0 at 1. simpl. rewrite <-!app_assoc. split; [done|].
      change (progress_lines (LogException (FailedToParse file) :: evs1 ++ evs))
        with (progress_lines (evs1 ++ evs)).
      by rewrite progress_lines_app, Hlines, Hlines1, Hfs1.
Qed.

Lemma iter_subdirs_progress subdirs n f acc w :
  ∃ evs,
    w_trace (iter_subdirs env subdirs collect n f acc w).2 = w_trace w ++ evs ∧
    progress_lines evs
    = progress_of env (w_fs w) (subdirs ≫= shard_files (w_fs w)) n f.
Proof.
  revert n f acc w. induction subdirs as [|subdir subdirs IH]; intros n f acc w.
  - exists []. by rewrite app_nil_r.
  - rewrite iter_subdirs_collect_cons, bind_cons, progress_of_app.
    destruct (iter_files_progress subdir (shard_files (w_fs w) subdir) n f acc w)
      as (evs1 & Htr1 & Hlines1).
    { apply Forall_forall. intros p Hp.
      destruct (shard_files_sorted (w_fs w) subdir) as [_ Hperm].
      rewrite Hperm in Hp. by apply glob_children in Hp as [? _]. }
    pose proof (iter_files_collect env subdir (shard_files (w_fs w) subdir) n f acc w)
      as (Hr1 & Hfs1 & _).
    destruct (iter_files _ _ _ _ _ _ _ _) as [r1 w1]. simpl in *. subst r1.
    destruct (IH (n + length (shard_files (w_fs w) subdir))%nat
                (f + length (filter (unparsable env (w_fs w))
                               (shard_files (w_fs w) subdir)))%nat
                (acc ++ omap (parse_file env (w_fs w)) (shard_files (w_fs w) subdir)) w1)
      as (evs & Htr & Hlines).
    exists (evs1 ++ evs). rewrite Htr, Htr1, <-app_assoc, progress_lines_app.
    by rewrite Hlines, Hlines1, Hfs1.
Qed.
End progress_log.

(** ** The scope of the writers, step by step *)

Lemma streaming_scope_open env articles_dir flag o w r w' :
  with_ExitStack
    (for_each (all_writers env o)
       (λ writer, enter_context (writer_enter env writer) (writer_exit writer));;
     lift (extract_data env articles_dir flag
             (write_article env (all_writers env o)) 0%nat)) w = (r, w') →
  dom (w_open w') ⊆ dom (w_open w).
Proof.
  intros (entered & rest & w1 & w2 & Hws & _ & Hdom1 & _ & -> & Hbody)%scope_run.
  destruct (close_all_run (reverse entered) w2) as (Hdom3 & _).
  assert (dom (w_open w2) = dom (w_open w1)) as Hdom2.
  { destruct Hbody as [[-> Hbody]|[-> _]]; [|done].
    assert (streamed w1 0%nat w1) as Hstart.
    { split_and!; [done..|]. exists [], []. by rewrite app_nil_r. }
    pose proof (hoare_run _ _ _ _ _ _ _ (hoare_streaming env articles_dir flag o w1)
                  Hstart Hbody) as Hloop.
    destruct r; by destruct Hloop as (_ & ? & _). }
  rewrite Hdom3, Hdom2, Hdom1, fmap_reverse.
  intros p. rewrite elem_of_difference, elem_of_union, !elem_of_list_to_set.
  rewrite elem_of_reverse. tauto.
Qed.

Section scope_events.
Context (env : Env).

Lemma close_all_trace writers w :
  NoDup (cw_output_file <$> writers) →
  (∀ writer, writer ∈ writers → cw_output_file writer ∈ dom (w_open w)) →
  w_trace (close_all (writer_exit <$> writers) w)
  = w_trace w ++ ((λ writer, EvClose (cw_name writer)) <$> writers).
Proof.
  revert w. induction writers as [|writer writers IH]; intros w Hnodup Hopen.
  - simpl. by rewrite app_nil_r.
  - change (close_all (writer_exit <$> writer :: writers) w)
      with (close_all (writer_exit <$> writers) (writer_exit writer w)).
    rewrite fmap_cons in Hnodup. apply NoDup_cons in Hnodup as [Hnotin Hnodup].
    destruct (writer_exit_run writer w) as (Hdom & _).
    rewrite IH; [|done|].
    + unfold writer_exit.
      assert (cw_output_file writer ∈ dom (w_open w)) as [h Hh]%elem_of_dom
        by (apply Hopen; left).
      rewrite Hh. simpl. by rewrite <-app_assoc.
    + intros writer' Hin. rewrite Hdom. apply elem_of_difference.
      split; [apply Hopen; by right|].
      intros Heq%elem_of_singleton. apply Hnotin. rewrite <-Heq.
      by apply list_elem_of_fmap_2.
Qed.

Lemma enter_all_events writers stack w r stack' w' :
  for_each writers
    (λ writer, enter_context (writer_enter env writer) (writer_exit writer))
    stack w = (r, stack', w') →
  ∃ entered rest,
    writers = entered ++ rest ∧
    stack' = (writer_exit <$> reverse entered) ++ stack ∧
    (if r is Ok _ then rest = [] else True) ∧
    w_trace w' = w_trace w ++ ((λ writer, EvOpen (cw_name writer)) <$> entered) ∧
    dom (w_open w') = dom (w_open w) ∪ list_to_set (cw_output_file <$> entered) ∧
    (∀ p, p ∉ cw_output_file <$> entered →
          fs_lookup (w_fs w') p = fs_lookup (w_fs w) p).
Proof.
  revert stack w. induction writers as [|writer writers IH]; intros stack w; simpl.
  - intros [= <- <- <-]. exists [], [].
    split_and!; try done; [by rewrite app_nil_r|set_solver].
  - unfold mbind at 1, StackM_bind at 1, enter_context at 1.
    destruct (writer_enter env writer w) as [[[]|e] w1] eqn:Henter;
      apply writer_enter_run in Henter; subst w1.
    + intros (entered & rest & -> & -> & Hrest & Htrace & Hdom & Hfs)%IH.
      exists (writer :: entered), rest. split_and!; try done.
      * by rewrite reverse_cons, fmap_app, <-app_assoc.
      * rewrite Htrace. simpl. by rewrite <-app_assoc.
      * rewrite Hdom. simpl. rewrite dom_insert_L. set_solver.
      * intros p Hp. rewrite fmap_cons, not_elem_of_cons in Hp.
        destruct Hp as [Hp1 Hp2]. rewrite Hfs by done. simpl.
        by apply fs_lookup_write_ne.
    + intros [= <- <- <-]. exists [], (writer :: writers). rewrite app_nil_r.
      split_and!; try done; set_solver.
Qed.

(** The scope of the writers: the writers that were entered, the loop if
    all of them were, and their exits in the opposite order. *)
Lemma streaming_scope_events articles_dir flag o w r w' :
  with_ExitStack
    (for_each (all_writers env o)
       (λ writer, enter_context (writer_enter env writer) (writer_exit writer));;
     lift (extract_data env articles_dir flag
             (write_article env (all_writers env o)) 0%nat)) w = (r, w') →
  ∃ entered rest loop,
    all_writers env o = entered ++ rest ∧
    w_trace w'
    = w_trace w ++ ((λ writer, EvOpen (cw_name writer)) <$> entered) ++ loop
      ++ ((λ writer, EvClose (cw_name writer)) <$> reverse entered) ∧
    Forall loop_event loop ∧ (rest ≠ [] → loop = []) ∧
    (∀ p, p ∉ cw_output_file <$> all_writers env o →
          fs_lookup (w_fs w') p = fs_lookup (w_fs w) p).
Proof.
  destruct (all_writers_files env o) as [Hnodup _].
  unfold with_ExitStack, mbind, StackM_bind.
  destruct (@for_each StackM _ _ _ (all_writers env o) _ [] w)
    as [[r1 stack] w1] eqn:Henter.
  apply enter_all_events in Henter
    as (entered & rest & Hws & -> & Hrest & Htr1 & Hdom1 & Hfs1).
  rewrite app_nil_r.
  assert (NoDup (cw_output_file <$> reverse entered)) as Hnodup'.
  { rewrite fmap_reverse, reverse_Permutation.
    rewrite Hws, fmap_app in Hnodup. by apply NoDup_app in Hnodup as [? _]. }
  assert (∀ p, p ∉ cw_output_file <$> all_writers env o →
               p ∉ cw_output_file <$> entered) as Hsub.
  { intros p Hp Hin. apply Hp. rewrite Hws, fmap_app, elem_of_app. by left. }
  assert (∀ w2, dom (w_open w2) = dom (w_open w1) →
                ∀ writer, writer ∈ reverse entered →
                          cw_output_file writer ∈ dom (w_open w2)) as Hopen.
  { intros w2 Hdom2 writer Hin. rewrite elem_of_reverse in Hin.
    rewrite Hdom2, Hdom1.
    apply elem_of_union. right. apply elem_of_list_to_set.
    by apply list_elem_of_fmap_2. }
  assert (∀ w2 p, p ∉ cw_output_file <$> all_writers env o →
                  fs_lookup (w_fs (close_all (writer_exit <$> reverse entered) w2)) p
                  = fs_lookup (w_fs w2) p) as Hfs3.
  { intros w2 p Hp. destruct (close_all_run (reverse entered) w2) as (_ & Hfs3 & _).
    apply Hfs3. rewrite fmap_reverse, elem_of_reverse. by apply Hsub. }
  destruct r1 as [[]|e].
  - subst rest. unfold lift.
    destruct (extract_data _ _ _ _ _ w1) as [r2 w2] eqn:Hbody. intros [= <- <-].
    rewrite app_nil_r in Hws.
    assert (streamed w1 0%nat w1) as Hstart.
    { split_and!; [done..|]. exists [], []. by rewrite app_nil_r. }
    pose proof (hoare_run _ _ _ _ _ _ _ (hoare_streaming env articles_dir flag o w1)
                  Hstart Hbody) as Hloop.
    assert (w_fs w2 = w_fs w1 ∧ dom (w_open w2) = dom (w_open w1) ∧
            ∃ loop, w_trace w2 = w_trace w1 ++ loop ∧ Forall loop_event loop)
      as (Hfs2 & Hdom2 & loop & Htr2 & Hloop').
    { destruct r2 as [n|e].
      - destruct Hloop as (? & ? & recs & loop & _ & _ & ? & Hevs & _).
        split_and!; [done..|]. exists loop. split; [done|].
        eapply Forall_impl; [done|]. intros [] [|]; done.
      - by destruct Hloop as (? & ? & ?). }
    exists entered, [], loop. rewrite app_nil_r. split_and!; [done| |done|done|].
    + rewrite close_all_trace by eauto. by rewrite Htr2, Htr1, <-!app_assoc.
    + intros p Hp. rewrite Hfs3, Hfs2, Hfs1; auto.
  - intros [= <- <-]. exists entered, rest, []. split_and!; [done| |done|done|].
    + rewrite close_all_trace by eauto. by rewrite Htr1, <-!app_assoc.
    + intros p Hp. rewrite Hfs3, Hfs1; auto.
Qed.

End scope_events.

Lemma is_mkdir_outside evs : Forall is_mkdir evs → Forall outside_event evs.
Proof. intros Hevs. eapply Forall_impl; [done|]. by intros []. Qed.

Lemma writer_files_are_output_files env o p :
  p ∉ output_files o → p ∉ cw_output_file <$> all_writers env o.
Proof.
  intros Hp Hin. apply Hp.
  change (cw_output_file <$> all_writers env o)
    with [Path.joinpath o "metadata.csv"; Path.joinpath o "text.csv";
          Path.joinpath o "coordinates.csv"] in Hin.
  unfold output_files. set_solver.
Qed.

(** ** Loops whose body does nothing but log *)

Lemma steady_ret {A} (a : A) : steady (mret a).
Proof. intros w w0. split_and!; [done..|]. exists []. by rewrite app_nil_r. Qed.

Lemma steady_raise {A} e : steady (raise e : M A).
Proof. intros w w0. split_and!; [done..|]. exists []. by rewrite app_nil_r. Qed.

Lemma steady_emit ev : is_log ev → steady (emit ev).
Proof.
  intros Hev w w0. split_and!; [done..|]. exists [ev]. split; [done|].
  by apply Forall_singleton.
Qed.

Lemma steady_bind {A B} (m : M A) (k : A → M B) :
  steady m → (∀ a, steady (k a)) → steady (m ≫= k).
Proof.
  intros Hm Hk w w0. unfold mbind, M_bind.
  destruct (Hm w w0) as (Hr & Hfs & Hopen & evs & Htr & Hevs).
  destruct (m w) as [[a|e] w1], (m w0) as [[a0|e0] w01]; simpl in *;
    simplify_eq; [|split_and!; eauto].
  destruct (Hk a0 w1 w01) as (Hr1 & Hfs1 & Hopen1 & evs1 & Htr1 & Hevs1).
  split_and!; [done|congruence..|].
  exists (evs ++ evs1). rewrite Htr1, Htr, <-app_assoc. split; [done|].
  by apply Forall_app.
Qed.

Lemma steady_fmap {A B} (f : A → B) (m : M A) : steady m → steady (f <$> m).
Proof. intros Hm. apply steady_bind; [done|]. intros a. apply steady_ret. Qed.

Lemma steady_extract_parts transformed part_names result :
  steady (extract_parts transformed part_names result).
Proof.
  revert result. induction part_names as [|part_name rest IH]; intros result;
    simpl; [apply steady_ret|].
  destruct (find transformed part_name); [apply IH | apply steady_raise].
Qed.

Lemma steady_py_int v : steady (py_int v).
Proof.
  destruct v as [|x|n]; simpl; [apply steady_raise| |apply steady_ret].
  destruct (int_of_str x); [apply steady_ret | apply steady_raise].
Qed.

Lemma steady_assemble env article acc :
  steady (assemble (data_extractors env) article acc).
Proof.
  assert (∀ r : result extracted, steady (λ w, (r, w))) as Hpure.
  { intros r w w0. split_and!; [done..|]. exists []. by rewrite app_nil_r. }
  unfold data_extractors. cbn [assemble].
  apply steady_bind; [apply Hpure|]. intros coordinates.
  apply steady_bind; [apply Hpure|]. intros metadata.
  apply steady_bind; [|intros text; apply steady_ret].
  apply steady_fmap. unfold _extract_text_from_article.
  destruct (text_stylesheet env article) as [transformed|].
  - apply steady_bind; [apply steady_extract_parts|]. intros result.
    apply steady_bind; [|intros pmcid; apply steady_ret].
    destruct (result !! "pmcid"); [apply steady_py_int | apply steady_raise].
  - apply steady_bind; [by apply steady_emit | intros _; apply steady_ret].
Qed.

Section steady_consumer.
Context (env : Env) {L : Type} (yield : Element → L → M L).

(** One turn of the inner loop of [iter_articles]. *)
Lemma visit_file_run subdir article_file n f s w :
  visit_file env subdir article_file yield n f s w
  = match parse_file env (w_fs w) article_file with
    | None =>
        (Ok (S f, s),
         progress subdir (S n) (S f)
           (add_event (LogException (FailedToParse article_file)) w))
    | Some article =>
        match yield article s w with
        | (Ok s', w1) => (Ok (f, s'), progress subdir (S n) f w1)
        | (Raise e, w1) => (Raise e, progress subdir (S n) f w1)
        end
    end.
Proof.
  unfold visit_file, try_finally, progress.
  cbv beta iota delta [mbind M_bind mret M_ret get_fs log_info log_exception emit].
  destruct (parse_file env (w_fs w) article_file) as [article|].
  - destruct (yield article s w) as [[s'|e] w1];
      cbn [fmap option_fmap option_map default fst]; by case_bool_decide.
  - cbn [fmap option_fmap option_map default fst]. by case_bool_decide.
Qed.

Hypothesis yield_steady : ∀ article s, steady (yield article s).

Lemma iter_files_steady subdir files n f s w :
  (iter_files env subdir files yield n f s w).1
  = match fold_yield yield (omap (parse_file env (w_fs w)) files) s with
    | Ok s' =>
        Ok ((n + length files)%nat,
            (f + length (filter (unparsable env (w_fs w)) files))%nat, s')
    | Raise e => Raise e
    end ∧
  w_fs (iter_files env subdir files yield n f s w).2 = w_fs w.
Proof.
  revert n f s w. induction files as [|article_file files IH]; intros n f s w.
  - simpl. by rewrite !Nat.add_0_r.
  - cbn [iter_files]. unfold mbind, M_bind. rewrite visit_file_run.
    destruct (parse_file env (w_fs w) article_file) as [article|] eqn:Hparse.
    + rewrite (omap_cons_Some _ _ _ _ Hparse), filter_cons.
      destruct (decide (unparsable env (w_fs w) article_file)) as [Hun|_];
        [unfold unparsable in Hun; congruence|].
      cbn [fold_yield length].
      destruct (yield_steady article s w (MkWorld [] ∅ [])) as (Hr & Hfs & _).
      rewrite <-Hr.
      destruct (yield article s w) as [[s'|e] w1]; simpl in Hfs; cbv beta iota.
      * destruct (progress_run subdir (S n) f w1) as (Hfs1 & _).
        destruct (IH (S n) f s' (progress subdir (S n) f w1)) as [Hres Hfs'].
        rewrite Hres, Hfs', Hfs1, Hfs. cbn [fst]. split; [|done].
        by rewrite <-!Nat.add_succ_comm.
      * destruct (progress_run subdir (S n) f w1) as (Hfs1 & _).
        cbn [fst snd]. by rewrite Hfs1.
    + rewrite (omap_cons_None _ _ _ Hparse), filter_cons.
      destruct (decide (unparsable env (w_fs w) article_file)) as [_|Hun]; [|done].
      cbn [length].
      set (w0 := add_event (LogException (FailedToParse article_file)) w).
      destruct (progress_run subdir (S n) (S f) w0) as (Hfs1 & _).
      destruct (IH (S n) (S f) s (progress subdir (S n) (S f) w0)) as [Hres Hfs'].
      cbv beta iota. rewrite Hres, Hfs', Hfs1. simpl. split; [|done].
      by rewrite <-!Nat.add_succ_comm.
Qed.

Lemma fold_yield_app articles1 articles2 s :
  fold_yield yield (articles1 ++ articles2) s
  = match fold_yield yield articles1 s with
    | Ok s' => fold_yield yield articles2 s'
    | Raise e => Raise e
    end.
Proof.
  revert s. induction articles1 as [|article articles1 IH]; intros s; simpl; [done|].
  destruct (yield article s _).1; [apply IH | done].
Qed.

Lemma iter_subdirs_steady subdirs n f s w :
  (iter_subdirs env subdirs yield n f s w).1
  = match fold_yield yield
            (omap (parse_file env (w_fs w)) (subdirs ≫= shard_files (w_fs w))) s with
    | Ok s' =>
        Ok ((n + length (subdirs ≫= shard_files (w_fs w)))%nat,
            (f + length (filter (unparsable env (w_fs w))
                           (subdirs ≫= shard_files (w_fs w))))%nat, s')
    | Raise e => Raise e
    end ∧
  w_fs (iter_subdirs env subdirs yield n f s w).2 = w_fs w.
Proof.
  revert n f s w. induction subdirs as [|subdir subdirs IH]; intros n f s w.
  - simpl. by rewrite !Nat.add_0_r.
  - rewrite iter_subdirs_collect_cons, bind_cons, omap_app, fold_yield_app,
      filter_app, !length_app.
    destruct (iter_files_steady subdir (shard_files (w_fs w) subdir) n f s w)
      as [Hres1 Hfs1].
    destruct (iter_files _ _ _ _ _ _ _ _) as [r1 w1]. simpl in Hres1, Hfs1. subst r1.
    destruct (fold_yield yield (omap _ (shard_files (w_fs w) subdir)) s) as [s1|e];
      [|done].
    destruct (IH (n + length (shard_files (w_fs w) subdir))%nat
                (f + length (filter (unparsable env (w_fs w))
                               (shard_files (w_fs w) subdir)))%nat s1 w1)
      as [Hres Hfs].
    rewrite Hres, Hfs, Hfs1. split; [|done].
    by rewrite !Nat.add_assoc.
Qed.

(** A loop over [iter_articles] whose body is steady ends as the body does
    on the documents that parse, in the order of the traversal; the first
    exception of the body ends it. *)
Lemma iter_articles_steady articles_dir s w :
  is_Some (fs_lookup (w_fs w) articles_dir) →
  (iter_articles env articles_dir yield s w).1
  = fold_yield yield
      (omap (parse_file env (w_fs w)) (article_files (w_fs w) articles_dir)) s ∧
  w_fs (iter_articles env articles_dir yield s w).2 = w_fs w.
Proof.
  intros Hexists%assert_exists_present.
  assert (iter_articles_locals env articles_dir yield s w
          = iter_subdirs env (shard_dirs (w_fs w) articles_dir) yield 0 0 s w) as Hrun.
  { unfold iter_articles_locals, mbind, M_bind. by rewrite Hexists. }
  unfold iter_articles, mbind, M_bind. rewrite Hrun.
  destruct (iter_subdirs_steady (shard_dirs (w_fs w) articles_dir) 0 0 s w)
    as [Hres Hfs].
  destruct (iter_subdirs _ _ _ _ _ _ _) as [r1 w1]. simpl in Hres, Hfs. subst r1.
  fold (article_files (w_fs w) articles_dir).
  destruct (fold_yield yield _ s) as [s'|e]; done.
Qed.
End steady_consumer.

Lemma fold_yield_records env articles acc :
  fold_yield
    (λ article s,
       article_data ← assemble (data_extractors env) article ∅;
       collect article_data s)
    articles acc
  = match records_of env articles with
    | Ok recs => Ok (acc ++ recs)
    | Raise e => Raise e
    end.
Proof.
  revert acc. induction articles as [|article articles IH]; intros acc.
  - simpl. by rewrite app_nil_r.
  - cbn [fold_yield records_of]. unfold record_of, mbind, M_bind.
    destruct (assemble _ _ _ _) as [[rec|e] w1]; [|done]. simpl.
    rewrite IH. destruct (records_of env articles); [|done].
    by rewrite <-app_assoc.
Qed.

(** ** The files of the traversal *)

Lemma elem_of_sorted p l : p ∈ sorted l ↔ p ∈ l.
Proof. unfold sorted. by rewrite merge_sort_Permutation. Qed.

Lemma NoDup_sorted l : NoDup l → NoDup (sorted l).
Proof. unfold sorted. by rewrite merge_sort_Permutation. Qed.

Lemma elem_of_glob fs d pattern p :
  p ∈ glob fs d pattern ↔
  fs_is_dir fs d = true ∧ is_child_of d p ∧ pattern (Path.name p) = true ∧
  p ∈ fs.*1.
Proof.
  unfold glob. destruct (fs_is_dir fs d).
  - rewrite list_elem_of_filter. naive_solver.
  - split; [by intros ?%elem_of_nil | by intros [? _]].
Qed.

Lemma NoDup_glob fs d pattern : NoDup fs.*1 → NoDup (glob fs d pattern).
Proof.
  intros Hnodup. unfold glob. destruct (fs_is_dir fs d); [|constructor].
  by apply NoDup_filter.
Qed.

Lemma fs_write_NoDup p n fs : NoDup fs.*1 → NoDup (fs_write p n fs).*1.
Proof.
  induction fs as [|[q m] fs IH]; simpl.
  - intros _. apply NoDup_singleton.
  - intros [Hq Hnodup]%NoDup_cons. destruct (decide (q = p)) as [->|Hne]; simpl.
    + by apply NoDup_cons.
    + apply NoDup_cons. split; [|by apply IH].
      intros Hin. apply fs_lookup_None in Hq. 
      assert (fs_lookup (fs_write p n fs) q = None) as Hnone
        by by rewrite fs_lookup_write_ne.
      by apply fs_lookup_None in Hnone.
Qed.

Lemma elem_of_keys fs p : p ∈ fs.*1 ↔ is_Some (fs_lookup fs p).
Proof.
  rewrite <-not_eq_None_Some, fs_lookup_None.
  destruct (decide (p ∈ fs.*1)); naive_solver.
Qed.

(** The files of the traversal only depend on what is at or below the
    corpus root. *)
Lemma article_files_below env fs fs' articles_dir :
  NoDup fs.*1 → NoDup fs'.*1 →
  (∀ p, articles_dir `prefix_of` p → fs_lookup fs' p = fs_lookup fs p) →
  article_files fs' articles_dir = article_files fs articles_dir ∧
  ∀ p, p ∈ article_files fs articles_dir →
       parse_file env fs' p = parse_file env fs p.
Proof.
  intros Hnodup Hnodup' Hsame.
  assert (∀ d p, is_child_of d p → d `prefix_of` p) as Hchild.
  { intros d p Hp%is_child_of_joinpath. rewrite Hp. by exists [Path.name p]. }
  assert (∀ d pattern, articles_dir `prefix_of` d →
            sorted (glob fs' d pattern) = sorted (glob fs d pattern)) as Hglob.
  { intros d pattern Hd. apply sorted_Permutation.
    apply NoDup_Permutation; [by apply NoDup_glob..|].
    intros p. rewrite !elem_of_glob, !elem_of_keys. unfold fs_is_dir.
    rewrite (Hsame d) by done. split.
    - intros (? & Hp & ? & ?). rewrite <-(Hsame p); [done|].
      etrans; [done|]. by apply Hchild.
    - intros (? & Hp & ? & ?). rewrite (Hsame p); [done|].
      etrans; [done|]. by apply Hchild. }
  assert (shard_dirs fs' articles_dir = shard_dirs fs articles_dir) as Hdirs.
  { unfold shard_dirs. apply sorted_Permutation.
    apply NoDup_Permutation; [by apply NoDup_filter, NoDup_glob..|].
    intros p. rewrite !list_elem_of_filter, !elem_of_glob, !elem_of_keys.
    unfold fs_is_dir. rewrite (Hsame articles_dir) by done. split.
    - intros (? & ? & Hp & ? & ?). rewrite <-(Hsame p); [done|]. by apply Hchild.
    - intros (? & ? & Hp & ? & ?). rewrite (Hsame p); [done|]. by apply Hchild. }
  assert (∀ subdir, subdir ∈ shard_dirs fs articles_dir →
                    articles_dir `prefix_of` subdir) as Hbelow.
  { intros subdir. unfold shard_dirs.
    rewrite elem_of_sorted, list_elem_of_filter, elem_of_glob.
    intros (_ & _ & Hp & _). by apply Hchild. }
  split.
  - unfold article_files. rewrite Hdirs. apply Forall_bind_ext, Forall_forall.
    intros subdir Hsubdir. apply Hglob. by apply Hbelow.
  - intros p. unfold article_files. rewrite list_elem_of_bind.
    intros (subdir & Hp & Hsubdir%Hbelow). unfold shard_files in Hp.
    rewrite elem_of_sorted, elem_of_glob in Hp. destruct Hp as (_ & Hp%Hchild & _).
    unfold parse_file. rewrite Hsame; [done|]. by etrans.
Qed.

(** Making the output directory and opening the writers keeps the entries
    of the file system distinct. *)
Lemma mkdir_from_NoDup above below w :
  NoDup (w_fs w).*1 → NoDup (w_fs (mkdir_from above below w).2).*1.
Proof.
  revert above w. induction below as [|c below IH]; intros above w Hnodup; [done|].
  cbn [mkdir_from]. cbv beta iota delta [mbind M_bind get_fs].
  destruct (fs_lookup (w_fs w) (Path.joinpath above c)) as [[|d]|];
    cbv beta iota delta [mret M_ret raise set_fs emit mbind M_bind].
  - by apply IH.
  - done.
  - apply IH. simpl. by apply fs_write_NoDup.
Qed.

Lemma get_output_dir_NoDup articles_dir output_dir flag w :
  NoDup (w_fs w).*1 →
  NoDup (w_fs (_get_output_dir articles_dir output_dir flag w).2).*1.
Proof.
  intros Hnodup. unfold _get_output_dir, mbind at 1, M_bind at 1.
  match goal with
  | |- context [match ?m w with _ => _ end] =>
      destruct (m w) as [[o|e] w1] eqn:Hresolve
  end; apply resolve_output_dir_inv in Hresolve as [-> _]; [|done].
  pose proof (mkdir_from_NoDup [] o w Hnodup) as Hmkdir.
  unfold mkdir, mbind, M_bind. by destruct (mkdir_from [] o w) as [[[]|?] ?].
Qed.

Lemma enter_all_NoDup env writers stack w :
  NoDup (w_fs w).*1 →
  NoDup (w_fs (for_each writers
                 (λ writer, enter_context (writer_enter env writer)
                              (writer_exit writer)) stack w).2).*1.
Proof.
  revert stack w. induction writers as [|writer writers IH]; intros stack w Hnodup;
    simpl; [done|].
  unfold mbind at 1, StackM_bind at 1, enter_context at 1.
  destruct (writer_enter env writer w) as [[[]|e] w1] eqn:Henter;
    apply writer_enter_run in Henter; subst w1; [|done].
  apply IH. simpl. by apply fs_write_NoDup.
Qed.

(** ** The records of the streaming loop *)

Lemma write_calls_logs evs : Forall is_log evs → write_calls evs = [].
Proof.
  intros Hevs. apply write_calls_none. eapply Forall_impl; [done|].
  intros []; simpl; tauto.
Qed.

Section streamed_records.
Context (env : Env) (o : Path.t).

(** The body of the loop of [extract_data_to_csv], as [iter_articles] runs
    it. *)
Local Abbreviation body :=
  (λ article n,
     article_data ← assemble (data_extractors env) article ∅;
     write_article env (all_writers env o) article_data n).

Lemma handed_over_nil k w : handed_over [] k k w w.
Proof. split_and!; [done|simpl; lia|]. exists []. by rewrite app_nil_r. Qed.

Lemma handed_over_app recs1 recs2 k1 k2 k3 w1 w2 w3 :
  handed_over recs1 k1 k2 w1 w2 → handed_over recs2 k2 k3 w2 w3 →
  handed_over (recs1 ++ recs2) k1 k3 w1 w3.
Proof.
  intros (Hfs1 & -> & evs1 & Htr1 & Hcalls1) (Hfs2 & -> & evs2 & Htr2 & Hcalls2).
  split_and!; [congruence|rewrite length_app; lia|].
  exists (evs1 ++ evs2). rewrite Htr2, Htr1, <-app_assoc. split; [done|].
  by rewrite write_calls_app, bind_app, Hcalls1, Hcalls2.
Qed.

Lemma handed_over_logs recs k k' w w' w'' :
  handed_over recs k k' w w' →
  w_fs w'' = w_fs w' → trace_ext is_log w' w'' →
  handed_over recs k k' w w''.
Proof.
  intros (Hfs & -> & evs & Htr & Hcalls) Hfs' (evs' & Htr' & Hevs').
  split_and!; [congruence|done|].
  exists (evs ++ evs'). rewrite Htr', Htr, <-app_assoc. split; [done|].
  by rewrite write_calls_app, Hcalls, write_calls_logs, app_nil_r.
Qed.

Lemma progress_logs subdir n f w :
  w_fs (progress subdir n f w) = w_fs w ∧
  trace_ext is_log w (progress subdir n f w).
Proof.
  destruct (progress_run subdir n f w) as (Hfs & _ & evs & Htr & Hevs & _).
  split; [done|]. by exists evs.
Qed.

Lemma body_run article k w k' w' :
  body article k w = (Ok k', w') →
  ∃ rec, record_of env article = Ok rec ∧ handed_over [rec] k k' w w'.
Proof.
  intros (rec & w1 & Hassemble & Hwrite)%bind_Ok_inv.
  destruct (steady_assemble env article ∅ w (MkWorld [] ∅ []))
    as (Hr & Hfs & _ & evs & Htr & Hevs).
  rewrite Hassemble in Hr, Hfs, Htr. simpl in Hr, Hfs, Htr.
  apply write_article_run in Hwrite as (Hfs' & _ & -> & Htr').
  exists rec. split; [done|]. split_and!; [congruence|simpl; lia|].
  eexists. rewrite Htr', Htr, <-app_assoc. split; [done|].
  by rewrite write_calls_app, write_calls_logs.
Qed.

Lemma iter_files_handed_over subdir files n f k w n' f' k' w' :
  iter_files env subdir files body n f k w = (Ok (n', f', k'), w') →
  ∃ recs,
    records_of env (omap (parse_file env (w_fs w)) files) = Ok recs ∧
    handed_over recs k k' w w'.
Proof.
  revert n f k w. induction files as [|article_file files IH]; intros n f k w.
  - intros [= <- <- <- <-]. exists []. split; [done|]. apply handed_over_nil.
  - cbn [iter_files]. intros ([f1 k1] & w1 & Hvisit & Hrest)%bind_Ok_inv.
    rewrite visit_file_run in Hvisit. cbv beta in Hvisit.
    apply IH in Hrest as (recs & Hrecs & Hrest).
    destruct (parse_file env (w_fs w) article_file) as [article|] eqn:Hparse.
    + match type of Hvisit with
      | context [let (_, _) := ?m in _] =>
          destruct m as [[k2|e] w2] eqn:Hbody; [|done]
      end.
      injection Hvisit as <- <- <-.
      apply body_run in Hbody as (rec & Hrec & Hbody).
      destruct (progress_logs subdir (S n) f w2) as [Hfs Hlogs].
      pose proof (handed_over_logs _ _ _ _ _ _ Hbody Hfs Hlogs) as Hfirst.
      destruct Hfirst as (Hfs1 & Hfirst). rewrite Hfs1 in Hrecs.
      exists (rec :: recs). split.
      * rewrite (omap_cons_Some _ _ _ _ Hparse). cbn [records_of].
        by rewrite Hrec, Hrecs.
      * by apply (handed_over_app [rec] recs _ _ _ _ _ _ (conj Hfs1 Hfirst)).
    + injection Hvisit as <- <- <-.
      set (w0 := add_event (LogException (FailedToParse article_file)) w) in *.
      destruct (progress_logs subdir (S n) (S f) w0) as [Hfs Hlogs].
      assert (handed_over [] k k w (progress subdir (S n) (S f) w0)) as Hfirst.
      { apply (handed_over_logs _ _ _ _ w0); [|done..].
        apply (handed_over_logs _ _ _ _ w); [apply handed_over_nil|done|].
        by apply trace_ext_add_event. }
      destruct Hfirst as (Hfs1 & Hfirst). rewrite Hfs1 in Hrecs.
      exists recs. split.
      * by rewrite (omap_cons_None _ _ _ Hparse).
      * by apply (handed_over_app [] recs _ _ _ _ _ _ (conj Hfs1 Hfirst)).
Qed.

Lemma records_of_app articles1 articles2 :
  records_of env (articles1 ++ articles2)
  = match records_of env articles1 with
    | Ok recs1 =>
        match records_of env articles2 with
        | Ok recs2 => Ok (recs1 ++ recs2)
        | Raise e => Raise e
        end
    | Raise e => Raise e
    end.
Proof.
  induction articles1 as [|article articles1 IH]; simpl.
  - by destruct (records_of env articles2).
  - destruct (record_of env article) as [rec|e]; [|done]. rewrite IH.
    destruct (records_of env articles1); [|done].
    by destruct (records_of env articles2).
Qed.

Lemma iter_subdirs_handed_over subdirs n f k w n' f' k' w' :
  iter_subdirs env subdirs body n f k w = (Ok (n', f', k'), w') →
  ∃ recs,
    records_of env
      (omap (parse_file env (w_fs w)) (subdirs ≫= shard_files (w_fs w))) = Ok recs ∧
    handed_over recs k k' w w'.
Proof.
  revert n f k w. induction subdirs as [|subdir subdirs IH]; intros n f k w.
  - intros [= <- <- <- <-]. exists []. split; [done|]. apply handed_over_nil.
  - rewrite iter_subdirs_collect_cons.
    destruct (iter_files _ _ _ _ _ _ _ _) as [[[[n1 f1] k1]|e] w1] eqn:Hfiles;
      [|done].
    apply iter_files_handed_over in Hfiles as (recs1 & Hrecs1 & Hfirst).
    intros (recs & Hrecs & Hrest)%IH.
    destruct Hfirst as (Hfs1 & Hfirst). rewrite Hfs1 in Hrecs.
    exists (recs1 ++ recs). split.
    + by rewrite bind_cons, omap_app, records_of_app, Hrecs1, Hrecs.
    + by apply (handed_over_app recs1 recs _ _ _ _ _ _ (conj Hfs1 Hfirst)).
Qed.

(** The loop of [extract_data_to_csv] hands over the record of every
    document that parses, in the order of the traversal, and counts
    them. *)
Lemma extract_data_handed_over articles_dir flag w n w' :
  extract_data env articles_dir flag (write_article env (all_writers env o)) 0%nat w
  = (Ok n, w') →
  ∃ recs,
    records_of env
      (omap (parse_file env (w_fs w)) (article_files (w_fs w) articles_dir))
    = Ok recs ∧
    handed_over recs 0 n w w'.
Proof.
  unfold extract_data. intros ([] & w0 & Hassert & Hrun)%bind_Ok_inv.
  apply assert_exists_run in Hassert as ->.
  unfold iter_articles in Hrun.
  apply bind_Ok_inv in Hrun as ([[n' f'] k'] & w1 & Hrun & [= <- <-]).
  unfold iter_articles_locals in Hrun.
  apply bind_Ok_inv in Hrun as ([] & w0 & Hassert & Hrun).
  apply assert_exists_run in Hassert as ->.
  by apply iter_subdirs_handed_over in Hrun.
Qed.
End streamed_records.

(** ** A run that returns *)

(** The steps of a run of [extract_data_to_csv] that returns: [w1] is the
    world once the output directory is in place, [w5] the world in which
    the loop starts, [w6] the world in which it ends. *)
Lemma completed_run_inv env articles_dir output_dir flag w v w' :
  extract_data_to_csv env articles_dir output_dir flag w = (Ok v, w') →
  ∃ o w1 w5 n w6,
    v = (o, 0%Z) ∧
    _get_output_dir articles_dir output_dir flag w = (Ok o, w1) ∧
    w_trace w5
    = w_trace w1 ++ [LogInfo (Extracting articles_dir o);
                     EvOpen "metadata"; EvOpen "text"; EvOpen "coordinates"] ∧
    (∀ p, p ∉ cw_output_file <$> all_writers env o →
          fs_lookup (w_fs w5) p = fs_lookup (w_fs w1) p) ∧
    (NoDup (w_fs w1).*1 → NoDup (w_fs w5).*1) ∧
    extract_data env articles_dir flag (write_article env (all_writers env o)) 0%nat w5
    = (Ok n, w6) ∧
    w_trace w'
    = w_trace w6 ++ [EvClose "coordinates"; EvClose "text"; EvClose "metadata";
                     EvWriteText (Path.joinpath o "info.json")
                       (JObject [("n_articles", Z.of_nat n)]);
                     LogInfo (DoneExtracting o)] ∧
    fs_lookup (w_fs w') (Path.joinpath o "info.json")
    = Some (NFile (JsonText (JObject [("n_articles", Z.of_nat n)]))).
Proof.
  unfold extract_data_to_csv.
  intros ([] & w0 & Hassert & Hrun)%bind_Ok_inv.
  apply assert_exists_run in Hassert as ->.
  apply bind_Ok_inv in Hrun as (o & w1 & Hdir & Hrun).
  apply bind_Ok_inv in Hrun as ([] & w2 & Hlog & Hrun).
  injection Hlog as <-.
  apply bind_Ok_inv in Hrun as (n & w3 & Hscope & Hrun).
  apply bind_Ok_inv in Hrun as ([] & w4 & Htext & Hrun).
  apply write_text_run in Htext. subst w4. injection Hrun as <- <-.
  revert Hscope. unfold with_ExitStack, mbind, StackM_bind.
  pose proof (enter_all_NoDup env (all_writers env o) []
                (add_event (LogInfo (Extracting articles_dir o)) w1)) as Hnodup5.
  destruct (@for_each StackM _ _ _ (all_writers env o) _ [] _)
    as [[[[]|e] stack] w5] eqn:Henter; [|by intros [= ]].
  apply enter_all_events in Henter
    as (entered & rest & Hws & -> & -> & Htr5 & Hdom5 & Hfs5).
  rewrite app_nil_r in Hws. subst entered. rewrite app_nil_r.
  unfold lift.
  destruct (extract_data _ _ _ _ _ w5) as [r6 w6] eqn:Hbody. intros [= -> <-].
  assert (streamed w5 0%nat w5) as Hstart.
  { split_and!; [done..|]. exists [], []. by rewrite app_nil_r. }
  pose proof (hoare_run _ _ _ _ _ _ _ (hoare_streaming env articles_dir flag o w5)
                Hstart Hbody) as (_ & Hdom6 & _).
  destruct (all_writers_files env o) as [Hnodup _].
  pose proof (close_all_trace (reverse (all_writers env o)) w6) as Htr7.
  exists o, w1, w5, n, w6. split_and!; [done|done| | | | | |].
  - rewrite Htr5. simpl. by rewrite <-app_assoc.
  - exact Hfs5.
  - exact Hnodup5.
  - exact Hbody.
  - simpl. simpl in Htr7. rewrite Htr7; [by rewrite <-!app_assoc| |].
    + change (NoDup (cw_output_file <$> reverse (all_writers env o))).
      by rewrite fmap_reverse, reverse_Permutation.
    + intros writer Hin. rewrite Hdom6, Hdom5.
      apply elem_of_union. right. apply elem_of_list_to_set.
      apply list_elem_of_fmap_2.
      change (writer ∈ reverse (all_writers env o)) in Hin.
      by apply elem_of_reverse in Hin.
  - simpl. apply fs_lookup_write_eq.
Qed.

(** ** Exceptions of the text extractor in a traversal *)

Lemma steady_text_extract env article :
  steady (extract (TextExtractor env) article).
Proof.
  simpl. apply steady_fmap. unfold _extract_text_from_article.
  destruct (text_stylesheet env article) as [transformed|].
  - apply steady_bind; [apply steady_extract_parts|]. intros result.
    apply steady_bind; [|intros pmcid; apply steady_ret].
    destruct (result !! "pmcid"); [apply steady_py_int | apply steady_raise].
  - apply steady_bind; [by apply steady_emit | intros _; apply steady_ret].
Qed.

(** The record of a document on which the text extractor raises, after the
    two other extractors have returned. *)
Lemma record_of_text_raises env article w e w' c m :
  extract (TextExtractor env) article w = (Raise e, w') →
  coordinate_extract env article = Ok c →
  metadata_extract env article = Ok m →
  record_of env article = Raise e.
Proof.
  intros Hraise Hc Hm.
  destruct (steady_text_extract env article (MkWorld [] ∅ []) w) as (Hr & _).
  rewrite Hraise in Hr. cbn [fst] in Hr.
  unfold record_of, data_extractors. cbn [assemble].
  unfold mbind, M_bind. cbn [extract CoordinateExtractor MetadataExtractor].
  rewrite Hc, Hm.
  destruct (extract (TextExtractor env) article (MkWorld [] ∅ [])) as [[d|e'] w1];
    cbn [fst] in Hr; by simplify_eq.
Qed.

Lemma records_of_raises env before article after recs e :
  records_of env before = Ok recs → record_of env article = Raise e →
  records_of env (before ++ article :: after) = Raise e.
Proof.
  intros Hbefore Hraise. rewrite records_of_app, Hbefore.
  cbn [records_of]. by rewrite Hraise.
Qed.

(** Collecting [extract_data] gives the records of the documents that
    parse, up to the first exception of an extractor. *)
Lemma extract_data_collect_records env articles_dir flag w :
  is_Some (fs_lookup (w_fs w) articles_dir) →
  (extract_data env articles_dir flag collect [] w).1
  = records_of env
      (omap (parse_file env (w_fs w)) (article_files (w_fs w) articles_dir)) ∧
  w_fs (extract_data env articles_dir flag collect [] w).2 = w_fs w.
Proof.
  intros Hexists. pose proof (assert_exists_present _ _ Hexists) as Hassert.
  unfold extract_data, mbind at 1 3, M_bind at 1 3. rewrite Hassert.
  fold (data_extractors env).
  destruct (iter_articles_steady env
              (λ article s,
                 article_data ← assemble (data_extractors env) article ∅;
                 collect article_data s)) with (articles_dir := articles_dir)
                                              (s := @nil ArticleRecord) (w := w)
    as [Hres Hfs]; [|done|].
  - intros article s. apply steady_bind; [apply steady_assemble|].
    intros rec. apply steady_ret.
  - rewrite Hres, Hfs, fold_yield_records. split; [|done].
    by destruct (records_of _ _).
Qed.

(** * The claims *)

(** C1. [extract_data] does not look at [articles_with_coords_only], and
    with an output directory given neither does [extract_data_to_csv]. On
    the small corpus, with the filter enabled, the article of shard [001],
    which has no coordinates, is handed to every writer, has a row in the
    metadata table and is counted in [n_articles]. *)
Theorem coords_only_filter_is_ignored :
  (∀ env articles_dir (L : Type) (yield : ArticleRecord → L → M L) s,
     extract_data env articles_dir true yield s
     = extract_data env articles_dir false yield s) ∧
  (∀ env articles_dir o,
     extract_data_to_csv env articles_dir (Some o) true
     = extract_data_to_csv env articles_dir (Some o) false) ∧
  let run := extract_data_to_csv ex_env ex_articles_dir None true ex_world in
  let o := ["data"; "subset_articlesWithCoords_extractedData"] in
  run.1 = Ok (o, 0%Z) ∧
  ex_record "3" 0 !! "coordinates" = Some (Table []) ∧
  (∀ writer, writer ∈ ["metadata"; "text"; "coordinates"] →
     handed_to writer (w_trace run.2)
     = [ex_record "1" 2; ex_record "2" 1; ex_record "3" 0]) ∧
  fs_lookup (w_fs run.2) (Path.joinpath o "metadata.csv")
  = Some (NFile (CsvTable ["pmcid"]
                   [{["pmcid" := VStr "1"]}; {["pmcid" := VStr "2"]};
                    {["pmcid" := VStr "3"]}])) ∧
  fs_lookup (w_fs run.2) (Path.joinpath o "info.json")
  = Some (NFile (JsonText (JObject [("n_articles", 3%Z)]))).
Proof.
  split_and!; [reflexivity..|]. intros run o.
  split_and!; [by vm_compute..| |by vm_compute|by vm_compute].
  intros writer. rewrite !elem_of_cons, elem_of_nil.
  intros [->|[->|[->|[]]]]; by vm_compute.
Qed.





(** C4. The traversal takes the subdirectories of the corpus root sorted
    by name and, in each, the files that match [pmcid_*.xml] sorted by name,
    and yields the documents of those that parse in that order; it yields
    the same sequence from any other enumeration order of the same tree. *)
Theorem traversal_is_sorted_and_deterministic env articles_dir w1 w2 :
  NoDup (w_fs w1).*1 → w_fs w1 ≡ₚ w_fs w2 →
  let fs := w_fs w1 in
  (StronglySorted String.le (Path.name <$> shard_dirs fs articles_dir) ∧
   shard_dirs fs articles_dir
   ≡ₚ filter (λ f, fs_is_dir fs f = true) (glob fs articles_dir pat_any)) ∧
  (∀ subdir,
     StronglySorted String.le (Path.name <$> shard_files fs subdir) ∧
     shard_files fs subdir ≡ₚ glob fs subdir pat_pmcid_xml) ∧
  (is_Some (fs_lookup fs articles_dir) →
   (iter_articles env articles_dir collect [] w1).1
   = Ok (omap (parse_file env fs) (shard_dirs fs articles_dir ≫= shard_files fs))) ∧
  (iter_articles env articles_dir collect [] w1).1
  = (iter_articles env articles_dir collect [] w2).1.
Proof.
  intros Hnodup Hperm fs. split; [|split; [|split]].
  - apply shard_dirs_sorted.
  - apply shard_files_sorted.
  - apply iter_articles_collect_result.
  - destruct (traversal_Permutation env _ _ articles_dir Hnodup Hperm) as [Hfiles Hparse].
    destruct (fs_lookup fs articles_dir) as [n|] eqn:Hroot.
    + rewrite !iter_articles_collect_result.
      * rewrite Hfiles. f_equal. apply list_omap_ext, Forall2_same_length_lookup.
        split; [done|]. intros i p q Hp Hq. by simplify_eq.
      * rewrite <-(fs_lookup_Permutation _ _ _ Hnodup Hperm). by exists n.
      * by exists n.
    + assert (fs_lookup (w_fs w2) articles_dir = None) as Hroot2.
      { by rewrite <-(fs_lookup_Permutation _ _ _ Hnodup Hperm). }
      apply assert_exists_missing in Hroot, Hroot2.
      unfold iter_articles, iter_articles_locals, mbind, M_bind.
      by rewrite Hroot, Hroot2.
Qed.

(** C4 on the small corpus and on the same tree enumerated in the
    opposite order. *)
Lemma traversal_is_sorted_and_deterministic_witness :
  NoDup (w_fs ex_world).*1 ∧
  w_fs ex_world ≡ₚ w_fs ex_world_reordered ∧
  (iter_articles ex_env ex_articles_dir collect [] ex_world).1
  = Ok [ex_article (Some "1") 2; ex_article (Some "2") 1; ex_article (Some "3") 0] ∧
  (iter_articles ex_env ex_articles_dir collect [] ex_world).1
  = (iter_articles ex_env ex_articles_dir collect [] ex_world_reordered).1.
Proof.
  assert (NoDup (w_fs ex_world).*1) as Hnodup.
  { by_vm_decide. }
  assert (w_fs ex_world ≡ₚ w_fs ex_world_reordered) as Hperm.
  { symmetry. apply reverse_Permutation. }
  split_and!; [exact Hnodup|exact Hperm|vm_compute; reflexivity|].
  exact (proj2 (proj2 (proj2 (traversal_is_sorted_and_deterministic ex_env ex_articles_dir
                                 ex_world ex_world_reordered Hnodup Hperm)))).
Defined.

(** C5 at a document without PMC id: the transform succeeds, the pmcid
    element has no text, and [int] raises. *)
Lemma text_extract_raises_without_pmcid :
  extract (TextExtractor ex_env) (ex_article None 1) ex_world
  = (Raise TypeError, ex_world) ∧
  (extract_data_to_csv ex_env ex_articles_dir None false ex_world_without_id).1
  = Raise TypeError.
Proof. split; by vm_compute. Qed.

(** C5, amended. When the stylesheet raises on a document, [extract] of
    the text extractor logs the failure and returns the empty mapping. When
    the transform has an element for each of the five fields and the text of
    its pmcid element is an integer literal, [extract] returns a mapping with
    exactly the five fields. In all cases in which it raises, the transform
    had succeeded and the world is as it was; and the exception propagates
    through [extract_data]: when the document is one that the traversal of
    a corpus parses, the two other extractors return on it and the
    documents before it have their records, collecting [extract_data] over
    that corpus raises the same exception. *)
Theorem text_extract_contains_transform_failure env article w :
  (text_stylesheet env article = None →
   extract (TextExtractor env) article w
   = (Ok (Fields ∅), add_event (LogException FailedToTransform) w)) ∧
  (∀ transformed n,
     text_stylesheet env article = Some transformed →
     (∀ part_name, part_name ∈ TextExtractor_fields →
                   is_Some (find transformed part_name)) →
     (find transformed "pmcid" ≫= text) ≫= int_of_str = Some n →
     ∃ d, extract (TextExtractor env) article w = (Ok (Fields d), w) ∧
          dom d = list_to_set TextExtractor_fields ∧ d !! "pmcid" = Some (VInt n)) ∧
  (∀ e w', extract (TextExtractor env) article w = (Raise e, w') →
           is_Some (text_stylesheet env article) ∧ w' = w) ∧
  (∀ e w' c m articles_dir flag w0 before after recs,
     extract (TextExtractor env) article w = (Raise e, w') →
     coordinate_extract env article = Ok c →
     metadata_extract env article = Ok m →
     is_Some (fs_lookup (w_fs w0) articles_dir) →
     omap (parse_file env (w_fs w0)) (article_files (w_fs w0) articles_dir)
     = before ++ article :: after →
     records_of env before = Ok recs →
     (extract_data env articles_dir flag collect [] w0).1 = Raise e).
Proof.
  split_and!.
  4: { intros e w' c m articles_dir flag w0 before after recs
         Hraise Hc Hm Hexists Hdocs Hbefore.
       destruct (extract_data_collect_records env articles_dir flag w0 Hexists)
         as [-> _].
       rewrite Hdocs. eapply records_of_raises; [done|].
       by eapply record_of_text_raises. }
  all: simpl; unfold _extract_text_from_article.
  - by intros ->.
  - intros transformed n -> Hall Hpmcid.
    unfold fmap, M_fmap, mbind at 1 2, M_bind at 1 2.
    rewrite extract_parts_present by done. simpl.
    rewrite lookup_insert_ne, lookup_insert_ne, lookup_insert_ne, lookup_insert_ne,
      lookup_insert_eq by done.
    destruct (find transformed "pmcid" ≫= text) as [s|]; [|done]. simpl in *.
    rewrite Hpmcid. eexists. split_and!; [done| |by rewrite lookup_insert_eq].
    rewrite !dom_insert_L. set_solver.
  - intros e w'. destruct (text_stylesheet env article) as [transformed|]; [|done].
    intros Hrun. split; [done|].
    cbv beta iota delta [fmap M_fmap mbind M_bind mret M_ret raise] in Hrun.
    pose proof (extract_parts_unchanged transformed TextExtractor_fields ∅ w) as Hparts.
    destruct (extract_parts _ _ _ w) as [[result|e1] w1]; simpl in Hparts; subst w1;
      [|by simplify_eq].
    destruct (result !! "pmcid") as [v|]; [|by simplify_eq].
    pose proof (py_int_unchanged v w) as Hint.
    destruct (py_int v w) as [[pmcid|e2] w2]; simpl in Hint; subst w2; by simplify_eq.
Qed.

(** C5, amended, on the small corpus: the article without PMC id makes
    [extract] raise, and [extract_data] over the corpus that holds it raises
    the same exception; the stylesheet raises on a letter, which gives the
    empty mapping; the first article gives the five fields. *)
Lemma text_extract_contains_transform_failure_witness :
  let article := ex_article None 1 in
  extract (TextExtractor ex_env) article ex_world = (Raise TypeError, ex_world) ∧
  omap (parse_file ex_env (w_fs ex_world_without_id))
    (article_files (w_fs ex_world_without_id) ex_articles_dir)
  = [] ++ article :: [] ∧
  (extract_data ex_env ex_articles_dir false collect [] ex_world_without_id).1
  = Raise TypeError ∧
  extract (TextExtractor ex_env) (Elem "letter" None []) ex_world
  = (Ok (Fields ∅), add_event (LogException FailedToTransform) ex_world) ∧
  ∃ d, extract (TextExtractor ex_env) (ex_article (Some "1") 2) ex_world
       = (Ok (Fields d), ex_world) ∧
       dom d = list_to_set TextExtractor_fields ∧ d !! "pmcid" = Some (VInt 1).
Proof.
  intros article.
  assert (extract (TextExtractor ex_env) article ex_world
          = (Raise TypeError, ex_world)) as Hraise by (vm_compute; reflexivity).
  assert (omap (parse_file ex_env (w_fs ex_world_without_id))
            (article_files (w_fs ex_world_without_id) ex_articles_dir)
          = [] ++ article :: []) as Hdocs by (vm_compute; reflexivity).
  assert (is_Some (fs_lookup (w_fs ex_world_without_id) ex_articles_dir)) as Hroot
    by by_vm_decide.
  split_and!; [exact Hraise|exact Hdocs| | |].
  - exact (proj2 (proj2 (proj2
             (text_extract_contains_transform_failure ex_env article ex_world)))
             TypeError ex_world _ _ ex_articles_dir false ex_world_without_id
             [] [] [] Hraise eq_refl eq_refl Hroot Hdocs eq_refl).
  - exact (proj1 (text_extract_contains_transform_failure ex_env
                    (Elem "letter" None []) ex_world) eq_refl).
  - refine (proj1 (proj2 (text_extract_contains_transform_failure ex_env
                            (ex_article (Some "1") 2) ex_world)) _ 1%Z eq_refl _ eq_refl).
    intros part_name Hin. unfold TextExtractor_fields in Hin.
    rewrite !elem_of_cons, elem_of_nil in Hin.
    destruct Hin as [->|[->|[->|[->|[->|[]]]]]]; vm_compute; by eexists.
Defined.

(** C6. A traversal of an existing corpus root comes to its end whatever
    number of files fail to parse: [n_articles] counts the files it visited and
    [n_failures] those that failed to parse, each failure is logged once, in
    order, and the documents of all the other files are yielded, in order.
    The traversal changes nothing but the log. With one more file in the
    tree that does not parse, the same documents are yielded. *)
Theorem parse_failures_are_skipped env articles_dir w :
  is_Some (fs_lookup (w_fs w) articles_dir) →
  let files := article_files (w_fs w) articles_dir in
  let failed := filter (unparsable env (w_fs w)) files in
  (∃ w' evs,
     iter_articles_locals env articles_dir collect [] w
     = (Ok (length files, length failed, omap (parse_file env (w_fs w)) files), w') ∧
     w_fs w' = w_fs w ∧ w_open w' = w_open w ∧
     w_trace w' = w_trace w ++ evs ∧ Forall is_log evs ∧
     parse_failures evs = failed) ∧
  (∀ bad content,
     fs_lookup (w_fs w) bad = None → etree_parse env content = None →
     (iter_articles env articles_dir collect []
        (MkWorld (w_fs w ++ [(bad, NFile (XmlText content))]) (w_open w) (w_trace w))).1
     = (iter_articles env articles_dir collect [] w).1).
Proof.
  intros Hexists files failed. split.
  - destruct (iter_articles_collect env articles_dir w Hexists)
      as (Hr & Hfs & Hopen & evs & Htrace & Hevs & Hfail).
    destruct (iter_articles_locals _ _ _ _ _) as [r w']. simpl in *. subst r.
    exists w', evs. by split_and!.
  - intros bad content Hfresh Hunparsable.
    rewrite !iter_articles_collect_result; [|done|].
    + simpl. f_equal. by apply article_files_one_more.
    + simpl. rewrite fs_lookup_app_fresh by done. by case_decide.
Qed.

(** C6 on the small corpus: four files are visited, one fails to parse,
    three documents are yielded. *)
Lemma parse_failures_are_skipped_witness :
  is_Some (fs_lookup (w_fs ex_world) ex_articles_dir) ∧
  ∃ w' evs,
    iter_articles_locals ex_env ex_articles_dir collect [] ex_world
    = (Ok (4%nat, 1%nat,
           [ex_article (Some "1") 2; ex_article (Some "2") 1; ex_article (Some "3") 0]),
       w') ∧
    w_fs w' = w_fs ex_world ∧ w_open w' = w_open ex_world ∧
    w_trace w' = w_trace ex_world ++ evs ∧ Forall is_log evs ∧
    parse_failures evs = [["data"; "articles"; "000"; "pmcid_15.xml"]].
Proof.
  assert (is_Some (fs_lookup (w_fs ex_world) ex_articles_dir)) as Hroot.
  { vm_compute. by eexists. }
  split; [exact Hroot|].
  exact (proj1 (parse_failures_are_skipped ex_env ex_articles_dir ex_world Hroot)).
Defined.

(** C7. When the corpus root does not exist, [iter_articles] and
    [extract_data] raise before they yield anything, whatever the consumer
    is, and [extract_data_to_csv] raises before it creates the output
    directory or opens a writer: each of them raises [FileNotFoundError] and
    leaves the file system, the open handles and the trace as they were. *)
Theorem missing_root_fails_fast env articles_dir output_dir flag w :
  fs_lookup (w_fs w) articles_dir = None →
  (∀ (L : Type) (yield : Element → L → M L) (s : L),
     iter_articles env articles_dir yield s w
     = (Raise (FileNotFoundError articles_dir), w)) ∧
  (∀ (L : Type) (yield : ArticleRecord → L → M L) (s : L),
     extract_data env articles_dir flag yield s w
     = (Raise (FileNotFoundError articles_dir), w)) ∧
  extract_data_to_csv env articles_dir output_dir flag w
  = (Raise (FileNotFoundError articles_dir), w).
Proof.
  intros Hmissing. apply assert_exists_missing in Hmissing.
  split_and!; intros;
    unfold iter_articles, iter_articles_locals, extract_data, extract_data_to_csv,
      mbind, M_bind;
    by rewrite Hmissing.
Qed.

(** C7 in a world without the corpus root. *)
Lemma missing_root_fails_fast_witness :
  fs_lookup (w_fs ex_world_no_root) ex_articles_dir = None ∧
  extract_data_to_csv ex_env ex_articles_dir None true ex_world_no_root
  = (Raise (FileNotFoundError ex_articles_dir), ex_world_no_root).
Proof.
  split; [reflexivity|].
  apply (missing_root_fails_fast ex_env ex_articles_dir None true ex_world_no_root).
  reflexivity.
Defined.



(** C9. The record that [extract_data] assembles for a document has
    exactly the names of the registered extractors as its keys: this holds
    for every record that the assembler returns, hence a consumer of
    [extract_data] that refuses any other record runs as one that does not
    check; and it holds when the text extractor could not transform the
    document, in which case the record maps text to the empty mapping. *)
Theorem article_record_keys env :
  (∀ article w rec w',
     assemble (data_extractors env) article ∅ w = (Ok rec, w') →
     dom rec = registered_names) ∧
  (∀ articles_dir flag (L : Type) (yield : ArticleRecord → L → M L) s w,
     extract_data env articles_dir flag yield s w
     = extract_data env articles_dir flag (checking_keys yield) s w) ∧
  (∀ article w rec w',
     text_stylesheet env article = None →
     assemble (data_extractors env) article ∅ w = (Ok rec, w') →
     dom rec = registered_names ∧ rec !! "text" = Some (Fields ∅)).
Proof.
  split_and!.
  - apply assemble_keys.
  - intros articles_dir flag L yield s w. unfold extract_data, mbind at 1 3, M_bind at 1 3.
    destruct (assert_exists articles_dir w) as [[[]|e] w1]; [|done].
    apply iter_articles_ext. intros article s' w2. unfold mbind, M_bind.
    destruct (assemble _ article ∅ w2) as [[rec|e] w3] eqn:Hassemble; [|done].
    apply assemble_keys in Hassemble. unfold checking_keys. by rewrite decide_True.
  - intros article w rec w' Hnone Hrun. split; [by eapply assemble_keys|].
    revert Hrun. unfold data_extractors. simpl.
    unfold _extract_text_from_article. rewrite Hnone.
    cbv beta iota delta [mbind M_bind mret M_ret fmap M_fmap log_exception emit].
    destruct (coordinate_extract env article); [|done].
    destruct (metadata_extract env article); [|done].
    intros [= <- _]. apply lookup_insert_eq.
Qed.

(** C10. When [extract_data_to_csv] returns, it returns the resolved output
    directory and the exit code 0. *)
Theorem returns_output_dir_and_zero env articles_dir output_dir flag w v w' :
  extract_data_to_csv env articles_dir output_dir flag w = (Ok v, w') →
  ∃ o, resolved_output_dir articles_dir output_dir flag = Some o ∧ v = (o, 0%Z).
Proof.
  intros (evs & _ & o & recs & Ho & -> & _)%extract_data_to_csv_run. eauto.
Qed.

(** C10 on the small corpus, where one file fails to parse. *)
Lemma returns_output_dir_and_zero_witness :
  let run := extract_data_to_csv ex_env ex_articles_dir None false ex_world in
  let v := (["data"; "subset_allArticles_extractedData"], 0%Z) in
  run = (Ok v, run.2) ∧
  parse_failures (w_trace run.2) = [["data"; "articles"; "000"; "pmcid_15.xml"]] ∧
  ∃ o, resolved_output_dir ex_articles_dir None false = Some o ∧ v = (o, 0%Z).
Proof.
  intros run v.
  assert (run = (Ok v, run.2)) as Hrun by (vm_compute; reflexivity).
  split_and!; [exact Hrun|vm_compute; reflexivity|].
  exact (returns_output_dir_and_zero ex_env ex_articles_dir None false ex_world v run.2 Hrun).
Defined.

(** * Further properties *)

(** ** The output directory *)

(** X1. When [_get_output_dir] returns, it returns the directory that was
    supplied, or else the sibling of the corpus root that is named after
    the subset; that directory and all its ancestors are directories; no
    entry that existed before has changed, nothing outside the path of
    the directory has been created, and no file has been opened. *)
Theorem output_dir_is_created articles_dir output_dir flag w o w' :
  _get_output_dir articles_dir output_dir flag w = (Ok o, w') →
  resolved_output_dir articles_dir output_dir flag = Some o ∧
  (∀ p, p ≠ [] → p `prefix_of` o → fs_lookup (w_fs w') p = Some NDir) ∧
  (∀ p, is_Some (fs_lookup (w_fs w) p) →
        fs_lookup (w_fs w') p = fs_lookup (w_fs w) p) ∧
  (∀ p, ¬ (p `prefix_of` o) → fs_lookup (w_fs w') p = fs_lookup (w_fs w) p) ∧
  w_open w' = w_open w.
Proof.
  intros Hrun. pose proof (get_output_dir_spec articles_dir output_dir flag w) as Hspec.
  rewrite Hrun in Hspec. destruct Hspec as (Ho & Hfree & Hfs).
  apply get_output_dir_run in Hrun as (Hopen & _).
  split_and!; [done| | | |done].
  - intros p Hp Hpre. by rewrite Hfs, decide_True.
  - intros p [n Hn]. rewrite Hfs. case_decide as Hp; [|done].
    destruct Hp as [Hp Hpre]. rewrite Hn. destruct n as [|d]; [done|].
    by apply Hfree in Hn.
  - intros p Hp. rewrite Hfs, decide_False; [done|]. by intros [_ ?].
Qed.

(** X1 on the small corpus: the default directory is made beside the
    corpus root. *)
Lemma output_dir_is_created_witness :
  let run := _get_output_dir ex_articles_dir None false ex_world in
  let o := ["data"; "subset_allArticles_extractedData"] in
  run = (Ok o, run.2) ∧
  resolved_output_dir ex_articles_dir None false = Some o ∧
  (∀ p, p ≠ [] → p `prefix_of` o → fs_lookup (w_fs run.2) p = Some NDir) ∧
  (∀ p, is_Some (fs_lookup (w_fs ex_world) p) →
        fs_lookup (w_fs run.2) p = fs_lookup (w_fs ex_world) p) ∧
  (∀ p, ¬ (p `prefix_of` o) → fs_lookup (w_fs run.2) p = fs_lookup (w_fs ex_world) p) ∧
  w_open run.2 = w_open ex_world.
Proof.
  intros run o.
  assert (run = (Ok o, run.2)) as Hrun by (vm_compute; reflexivity).
  split; [exact Hrun|].
  exact (output_dir_is_created ex_articles_dir None false ex_world o run.2 Hrun).
Defined.

(** X2. Where the output directory and its ancestors are in place,
    [_get_output_dir] returns the directory and changes nothing: an output
    directory that exists is not an error, and nothing is logged. *)
Theorem existing_output_dir_is_reused articles_dir output_dir flag w o :
  resolved_output_dir articles_dir output_dir flag = Some o →
  (∀ p, p ≠ [] → p `prefix_of` o → fs_lookup (w_fs w) p = Some NDir) →
  _get_output_dir articles_dir output_dir flag w = (Ok o, w).
Proof. apply get_output_dir_in_place. Qed.

(** X2 on the small corpus, after a first call has made the directory:
    the second call is a no-op. *)
Lemma existing_output_dir_is_reused_witness :
  let w := (_get_output_dir ex_articles_dir None false ex_world).2 in
  _get_output_dir ex_articles_dir None false w
  = (Ok ["data"; "subset_allArticles_extractedData"], w).
Proof.
  intros w. apply existing_output_dir_is_reused; [reflexivity|].
  intros p Hp [k Hk].
  destruct p as [|c1 [|c2 [|c3 p]]]; simpl in Hk; [done| | |discriminate].
  - injection Hk as <- _. vm_compute. reflexivity.
  - injection Hk as <- <- _. vm_compute. reflexivity.
Defined.

(** X3. [_get_output_dir] returns exactly when the directory has a name
    and no file is at its path or at the path of an ancestor. It raises
    [ValueError] when no directory is supplied and the corpus root has no
    name, [FileExistsError] when a file has the path of the directory and
    [NotADirectoryError] when a file has the path of an ancestor; what
    existed before is as it was. *)
Theorem output_dir_failures articles_dir output_dir flag w :
  let run := _get_output_dir articles_dir output_dir flag w in
  match run.1 with
  | Ok o =>
      resolved_output_dir articles_dir output_dir flag = Some o ∧
      (∀ p d, p ≠ [] → p `prefix_of` o → fs_lookup (w_fs w) p ≠ Some (NFile d))
  | Raise e =>
      ((resolved_output_dir articles_dir output_dir flag = None ∧
        e = ValueError ∧ run.2 = w) ∨
       (∃ o p d,
          resolved_output_dir articles_dir output_dir flag = Some o ∧
          p ≠ [] ∧ p `prefix_of` o ∧ fs_lookup (w_fs w) p = Some (NFile d) ∧
          (p = o → e = FileExistsError o) ∧
          (p ≠ o → ∃ q, e = NotADirectoryError q))) ∧
      (∀ q, is_Some (fs_lookup (w_fs w) q) →
            fs_lookup (w_fs run.2) q = fs_lookup (w_fs w) q) ∧
      w_open run.2 = w_open w
  end.
Proof.
  pose proof (get_output_dir_spec articles_dir output_dir flag w) as Hspec.
  destruct (_get_output_dir articles_dir output_dir flag w) as [[o|e] w'] eqn:Hrun;
    cbv zeta; cbn [fst snd].
  - destruct Hspec as (Ho & Hfree & _). done.
  - apply get_output_dir_run in Hrun as (Hopen & _).
    destruct Hspec as [(-> & -> & -> & ->)|(o & p & d & Ho & Hp & Hpre & Hfile & -> & Hkeep)].
    + split_and!; [by left|done..].
    + split_and!; [right|by eauto|done]. exists o, p, d. split_and!; try done.
      * intros ->. by rewrite decide_True.
      * intros Hne. rewrite decide_False by done. eauto.
Qed.

(** ** The traversal *)

(** X4. A traversal of the corpus logs a progress line after every
    twentieth file that it visits, whether the file parsed or not, and at
    no other time: a corpus of [N] files gives [N / 20] lines. The line
    after the [n]-th file names the subdirectory of that file and reports
    [n] and the number of the first [n] files that failed to parse. *)
Theorem progress_is_logged_every_20_files env articles_dir w :
  is_Some (fs_lookup (w_fs w) articles_dir) →
  let files := article_files (w_fs w) articles_dir in
  ∃ evs,
    w_trace (iter_articles env articles_dir collect [] w).2 = w_trace w ++ evs ∧
    (λ l, l.1.2) <$> progress_lines evs
    = filter (λ k, k mod 20 = 0)%nat (seq 1 (length files)) ∧
    length (progress_lines evs) = (length files / 20)%nat ∧
    ∀ subdir n f,
      (subdir, n, f) ∈ progress_lines evs →
      ∃ file, files !! (n - 1)%nat = Some file ∧
              subdir = Path.name (Path.parent file) ∧
              f = length (filter (unparsable env (w_fs w)) (take n files)).
Proof.
  intros Hexists files.
  destruct (iter_subdirs_progress env (shard_dirs (w_fs w) articles_dir) 0 0 [] w)
    as (evs & Htr & Hlines).
  exists evs. split_and!.
  - rewrite <-Htr. apply assert_exists_present in Hexists.
    unfold iter_articles, iter_articles_locals, mbind, M_bind at 1 2, get_fs.
    rewrite Hexists. unfold mbind, M_bind, get_fs.
    by destruct (iter_subdirs _ _ _ _ _ _ _) as [[[[??]?]|?] ?].
  - rewrite Hlines. apply progress_of_counts.
  - rewrite <-(multiples_of_20_upto (length files)).
    rewrite <-(progress_of_counts env (w_fs w) files 0 0), length_fmap.
    by rewrite Hlines.
  - intros subdir n f. rewrite Hlines.
    intros (Hn & file & Hfile & -> & ->)%progress_of_elem.
    exists file. rewrite Nat.sub_0_r in *. done.
Qed.

(** X4 on a shard of twenty-one files: one line, after the twentieth. *)
Lemma progress_is_logged_every_20_files_witness :
  is_Some (fs_lookup (w_fs ex_world_many) ex_articles_dir) ∧
  progress_lines
    (w_trace (iter_articles ex_env ex_articles_dir collect [] ex_world_many).2)
  = [("000", 20%nat, 1%nat)] ∧
  let files := article_files (w_fs ex_world_many) ex_articles_dir in
  ∃ evs,
    w_trace (iter_articles ex_env ex_articles_dir collect [] ex_world_many).2
    = w_trace ex_world_many ++ evs ∧
    (λ l, l.1.2) <$> progress_lines evs
    = filter (λ k, k mod 20 = 0)%nat (seq 1 (length files)) ∧
    length (progress_lines evs) = (length files / 20)%nat ∧
    ∀ subdir n f,
      (subdir, n, f) ∈ progress_lines evs →
      ∃ file, files !! (n - 1)%nat = Some file ∧
              subdir = Path.name (Path.parent file) ∧
              f = length (filter (unparsable ex_env (w_fs ex_world_many)) (take n files)).
Proof.
  assert (is_Some (fs_lookup (w_fs ex_world_many) ex_articles_dir)) as Hroot.
  { by_vm_decide. }
  split_and!; [exact Hroot|vm_compute; reflexivity|].
  exact (progress_is_logged_every_20_files ex_env ex_articles_dir ex_world_many Hroot).
Defined.

(** X8. The files that the traversal visits (lines 82 and 83) are the
    entries named [pmcid_*.xml] of the subdirectories of the corpus root,
    and nothing else: no entry of the corpus root itself, nothing further
    down, nothing in an entry of the corpus root that is not a directory.
    Each of them is visited once. *)
Theorem every_article_file_is_visited_once fs articles_dir :
  NoDup fs.*1 →
  NoDup (article_files fs articles_dir) ∧
  ∀ p, p ∈ article_files fs articles_dir ↔
       fs_is_dir fs articles_dir = true ∧
       is_child_of articles_dir (Path.parent p) ∧
       fs_is_dir fs (Path.parent p) = true ∧
       p ≠ [] ∧ is_Some (fs_lookup fs p) ∧
       pat_pmcid_xml (Path.name p) = true.
Proof.
  intros Hnodup.
  assert (∀ p, p ∈ fs.*1 ↔ is_Some (fs_lookup fs p)) as Hin.
  { intros p. rewrite <-not_eq_None_Some, fs_lookup_None.
    destruct (decide (p ∈ fs.*1)); naive_solver. }
  assert (∀ subdir p, p ∈ shard_files fs subdir ↔
            fs_is_dir fs subdir = true ∧ is_child_of subdir p ∧
            pat_pmcid_xml (Path.name p) = true ∧ p ∈ fs.*1) as Hfiles.
  { intros subdir p. unfold shard_files. by rewrite elem_of_sorted, elem_of_glob. }
  assert (∀ subdir, subdir ∈ shard_dirs fs articles_dir ↔
            fs_is_dir fs articles_dir = true ∧ is_child_of articles_dir subdir ∧
            fs_is_dir fs subdir = true) as Hdirs.
  { intros subdir. unfold shard_dirs.
    rewrite elem_of_sorted, list_elem_of_filter, elem_of_glob. split.
    - naive_solver.
    - intros (Hroot & Hchild & Hdir). split_and!; try done.
      apply Hin. unfold fs_is_dir in Hdir.
      destruct (fs_lookup fs subdir); [by eexists | done]. }
  split.
  - unfold article_files. apply NoDup_bind.
    + intros subdir1 subdir2 p _ _ (_ & [_ H1] & _)%Hfiles (_ & [_ H2] & _)%Hfiles.
      congruence.
    + intros subdir _. unfold shard_files. by apply NoDup_sorted, NoDup_glob.
    + unfold shard_dirs. by apply NoDup_sorted, NoDup_filter, NoDup_glob.
  - intros p. unfold article_files. rewrite list_elem_of_bind. split.
    + intros (subdir & (Hdir & [Hne <-] & Hpat & Hp)%Hfiles & (Hroot & Hchild & _)%Hdirs).
      split_and!; try done. by apply Hin.
    + intros (Hroot & Hchild & Hdir & Hne & Hp & Hpat).
      exists (Path.parent p). split.
      * apply Hfiles. split_and!; try done. by apply Hin.
      * by apply Hdirs.
Qed.

(** X8 on the small corpus: the note in shard [000] is not visited. *)
Lemma every_article_file_is_visited_once_witness :
  NoDup ex_fs.*1 ∧
  article_files ex_fs ex_articles_dir
  = [ ["data"; "articles"; "000"; "pmcid_1.xml"];
      ["data"; "articles"; "000"; "pmcid_15.xml"];
      ["data"; "articles"; "000"; "pmcid_2.xml"];
      ["data"; "articles"; "001"; "pmcid_3.xml"] ] ∧
  NoDup (article_files ex_fs ex_articles_dir) ∧
  ∀ p, p ∈ article_files ex_fs ex_articles_dir ↔
       fs_is_dir ex_fs ex_articles_dir = true ∧
       is_child_of ex_articles_dir (Path.parent p) ∧
       fs_is_dir ex_fs (Path.parent p) = true ∧
       p ≠ [] ∧ is_Some (fs_lookup ex_fs p) ∧
       pat_pmcid_xml (Path.name p) = true.
Proof.
  assert (NoDup ex_fs.*1) as Hnodup by by_vm_decide.
  split_and!; [exact Hnodup|vm_compute; reflexivity|..];
    apply (every_article_file_is_visited_once ex_fs ex_articles_dir Hnodup).
Defined.

(** X7. [extract_data] yields one record for every document that
    parses, in the order of the traversal, each holding what the three
    extractors make of the document; the first exception of an extractor
    ends the sequence and is raised to the consumer. Collecting the records
    changes no file. *)
Theorem extract_data_yields_the_records env articles_dir flag w :
  is_Some (fs_lookup (w_fs w) articles_dir) →
  (extract_data env articles_dir flag collect [] w).1
  = records_of env
      (omap (parse_file env (w_fs w)) (article_files (w_fs w) articles_dir)) ∧
  w_fs (extract_data env articles_dir flag collect [] w).2 = w_fs w.
Proof. apply extract_data_collect_records. Qed.

(** X7 on the small corpus: the three documents that parse give three
    records; on the corpus whose article has no PMC id, the exception of
    the text extractor ends the sequence. *)
Lemma extract_data_yields_the_records_witness :
  is_Some (fs_lookup (w_fs ex_world) ex_articles_dir) ∧
  (extract_data ex_env ex_articles_dir false collect [] ex_world).1
  = Ok [ex_record "1" 2; ex_record "2" 1; ex_record "3" 0] ∧
  (extract_data ex_env ex_articles_dir false collect [] ex_world_without_id).1
  = Raise TypeError ∧
  (extract_data ex_env ex_articles_dir false collect [] ex_world).1
  = records_of ex_env
      (omap (parse_file ex_env (w_fs ex_world))
         (article_files (w_fs ex_world) ex_articles_dir)) ∧
  w_fs (extract_data ex_env ex_articles_dir false collect [] ex_world).2
  = w_fs ex_world.
Proof.
  assert (is_Some (fs_lookup (w_fs ex_world) ex_articles_dir)) as Hroot.
  { by_vm_decide. }
  split_and!; [exact Hroot|vm_compute; reflexivity|vm_compute; reflexivity|..];
    apply (extract_data_yields_the_records ex_env ex_articles_dir false ex_world Hroot).
Defined.

(** ** The run *)

(** X5. Whatever the outcome of [extract_data_to_csv], no file is open
    after it that was not open before: the writers that were entered are
    closed when the run returns, when a writer cannot be opened, when an
    extractor raises and when a write raises. *)
Theorem no_writer_is_left_open env articles_dir output_dir flag w :
  dom (w_open (extract_data_to_csv env articles_dir output_dir flag w).2)
  ⊆ dom (w_open w).
Proof.
  destruct (extract_data_to_csv env articles_dir output_dir flag w) as [r w'] eqn:Hrun.
  simpl. revert Hrun. unfold extract_data_to_csv.
  intros [([] & w0 & Hassert & Hrun)|(e & Hassert & ->)]%bind_inv;
    apply assert_exists_run in Hassert as ->; [|done].
  revert Hrun.
  intros [(o & w1 & Hdir & Hrun)|(e & Hdir & ->)]%bind_inv;
    apply get_output_dir_run in Hdir as (Hopen1 & _); [|by rewrite Hopen1].
  revert Hrun.
  intros [([] & w2 & Hlog & Hrun)|(e & Hlog & ->)]%bind_inv; [|done].
  injection Hlog as <-. revert Hrun.
  intros [(n & w2 & Hscope & Hrun)|(e & Hscope & ->)]%bind_inv;
    apply streaming_scope_open in Hscope; simpl in Hscope; rewrite Hopen1 in Hscope;
    [|done].
  revert Hrun.
  intros [([] & w3 & Htext & Hrun)|(e & Htext & ->)]%bind_inv;
    apply write_text_run in Htext; subst; [|done].
  by injection Hrun as <- <-.
Qed.

(** X6. A run that returns has done the following, in this order: made
    the missing directories of the output path, logged the start, opened
    the metadata, the text and the coordinates writer, handed each record
    to the three writers in turn (logging in between), closed the writers
    in the opposite order, written [info.json] with the number of records
    and logged the end. *)
Theorem run_events_are_ordered env articles_dir output_dir flag w v w' :
  extract_data_to_csv env articles_dir output_dir flag w = (Ok v, w') →
  ∃ o mkdirs recs loop,
    v = (o, 0%Z) ∧
    w_trace w'
    = w_trace w ++ mkdirs
      ++ [LogInfo (Extracting articles_dir o);
          EvOpen "metadata"; EvOpen "text"; EvOpen "coordinates"]
      ++ loop
      ++ [EvClose "coordinates"; EvClose "text"; EvClose "metadata";
          EvWriteText (Path.joinpath o "info.json")
            (JObject [("n_articles", Z.of_nat (length recs))]);
          LogInfo (DoneExtracting o)] ∧
    Forall is_mkdir mkdirs ∧
    Forall (λ ev, is_log ev ∨ is_write_call ev) loop ∧
    write_calls loop = recs ≫= fan_out.
Proof.
  intros (o & w1 & w5 & n & w6 & -> & Hdir & Htr5 & _ & _ & Hbody & Htr' & _)
    %completed_run_inv.
  destruct (get_output_dir_trace articles_dir output_dir flag w)
    as (mkdirs & Htr1 & Hmkdirs).
  rewrite Hdir in Htr1. simpl in Htr1.
  assert (streamed w5 0%nat w5) as Hstart.
  { split_and!; [done..|]. exists [], []. by rewrite app_nil_r. }
  pose proof (hoare_run _ _ _ _ _ _ _ (hoare_streaming env articles_dir flag o w5)
                Hstart Hbody) as (_ & _ & recs & loop & -> & _ & Htr6 & Hloop & Hcalls).
  exists o, mkdirs, recs, loop. split_and!; [done| |done..].
  rewrite Htr', Htr6, Htr5, Htr1, <-!app_assoc. reflexivity.
Qed.

(** X6 on the small corpus. *)
Lemma run_events_are_ordered_witness :
  let run := extract_data_to_csv ex_env ex_articles_dir None false ex_world in
  let v := (["data"; "subset_allArticles_extractedData"], 0%Z) in
  run = (Ok v, run.2) ∧
  ∃ o mkdirs recs loop,
    v = (o, 0%Z) ∧
    w_trace run.2
    = w_trace ex_world ++ mkdirs
      ++ [LogInfo (Extracting ex_articles_dir o);
          EvOpen "metadata"; EvOpen "text"; EvOpen "coordinates"]
      ++ loop
      ++ [EvClose "coordinates"; EvClose "text"; EvClose "metadata";
          EvWriteText (Path.joinpath o "info.json")
            (JObject [("n_articles", Z.of_nat (length recs))]);
          LogInfo (DoneExtracting o)] ∧
    Forall is_mkdir mkdirs ∧
    Forall (λ ev, is_log ev ∨ is_write_call ev) loop ∧
    write_calls loop = recs ≫= fan_out.
Proof.
  intros run v.
  assert (run = (Ok v, run.2)) as Hrun by (vm_compute; reflexivity).
  split; [exact Hrun|].
  exact (run_events_are_ordered ex_env ex_articles_dir None false ex_world v run.2 Hrun).
Defined.

(** X9. Whatever the outcome of [extract_data_to_csv], the writers that
    it opened are a prefix of metadata, text, coordinates; they are closed
    in the opposite order of their opening; records are only handed over
    in between, and only if all three were opened; outside of that scope the
    run makes directories, logs, and writes [info.json]. *)
Theorem writers_are_closed_in_reverse_order env articles_dir output_dir flag w :
  ∃ names pre loop post,
    w_trace (extract_data_to_csv env articles_dir output_dir flag w).2
    = w_trace w ++ pre ++ (EvOpen <$> names) ++ loop
      ++ (EvClose <$> reverse names) ++ post ∧
    names `prefix_of` ["metadata"; "text"; "coordinates"] ∧
    Forall outside_event pre ∧ Forall outside_event post ∧
    Forall loop_event loop ∧
    (names ≠ ["metadata"; "text"; "coordinates"] → loop = []).
Proof.
  destruct (extract_data_to_csv env articles_dir output_dir flag w) as [r w'] eqn:Hrun.
  simpl. revert Hrun. unfold extract_data_to_csv.
  intros [([] & w0 & Hassert & Hrun)|(e & Hassert & ->)]%bind_inv;
    apply assert_exists_run in Hassert as ->; last first.
  { exists [], [], [], []. rewrite app_nil_r. split_and!; try done.
    apply prefix_nil. }
  revert Hrun.
  destruct (get_output_dir_trace articles_dir output_dir flag w)
    as (mkdirs & Htr1 & Hmkdirs%is_mkdir_outside).
  intros [(o & w1 & Hdir & Hrun)|(e & Hdir & ->)]%bind_inv;
    rewrite Hdir in Htr1; simpl in Htr1; last first.
  { exists [], mkdirs, [], []. rewrite !app_nil_r. split_and!; try done.
    apply prefix_nil. }
  revert Hrun.
  intros [([] & w2 & Hlog & Hrun)|(e & Hlog & ->)]%bind_inv; [|done].
  injection Hlog as <-. revert Hrun.
  assert (∀ r2 w2 post,
    with_ExitStack
      (for_each (all_writers env o)
         (λ writer, enter_context (writer_enter env writer) (writer_exit writer));;
       lift (extract_data env articles_dir flag
               (write_article env (all_writers env o)) 0%nat))
      (add_event (LogInfo (Extracting articles_dir o)) w1) = (r2, w2) →
    Forall outside_event post →
    ∃ names pre loop post',
      w_trace w2 ++ post
      = w_trace w ++ pre ++ (EvOpen <$> names) ++ loop
        ++ (EvClose <$> reverse names) ++ post' ∧
      names `prefix_of` ["metadata"; "text"; "coordinates"] ∧
      Forall outside_event pre ∧ Forall outside_event post' ∧
      Forall loop_event loop ∧
      (names ≠ ["metadata"; "text"; "coordinates"] → loop = [])) as Hshape.
  { intros r2 w2 post
      (entered & rest & loop & Hws & Htr2 & Hloop & Hrest & _)%streaming_scope_events
      Hpost.
    exists (cw_name <$> entered), (mkdirs ++ [LogInfo (Extracting articles_dir o)]),
      loop, post.
    split_and!; [|exists (cw_name <$> rest); by rewrite <-fmap_app, <-Hws| |done..|].
    - rewrite Htr2. simpl. rewrite Htr1, <-fmap_reverse, <-!list_fmap_compose.
      by rewrite <-!app_assoc.
    - apply Forall_app. split; [done|]. by apply Forall_singleton.
    - intros Hnames. apply Hrest. intros ->. apply Hnames.
      rewrite app_nil_r in Hws. by rewrite <-Hws. }
  intros [(n & w2 & Hscope & Hrun)|(e & Hscope & ->)]%bind_inv; last first.
  { destruct (Hshape _ _ [] Hscope) as (names & pre & loop & post & Htr & ?);
      [done|].
    rewrite app_nil_r in Htr. by exists names, pre, loop, post. }
  revert Hrun.
  intros [([] & w3 & Htext & Hrun)|(e & Htext & ->)]%bind_inv;
    apply write_text_run in Htext; subst.
  - injection Hrun as <- <-. simpl. rewrite <-app_assoc.
    apply (Hshape _ _ _ Hscope). by repeat constructor.
  - destruct (Hshape _ _ [] Hscope) as (names & pre & loop & post & Htr & ?);
      [done|].
    rewrite app_nil_r in Htr. by exists names, pre, loop, post.
Qed.

(** X10. Whatever its outcome, [extract_data_to_csv] leaves every path
    as it was that is not one of its four output files, provided that
    something was at the path before or that the path is neither the
    output directory nor an ancestor of it: what existed is neither changed
    nor removed, and what is created is the output directory, its missing
    ancestors and the four files. *)
Theorem nothing_else_is_written env articles_dir output_dir flag w o p :
  resolved_output_dir articles_dir output_dir flag = Some o →
  p ∉ output_files o →
  is_Some (fs_lookup (w_fs w) p) ∨ ¬ (p `prefix_of` o) →
  fs_lookup (w_fs (extract_data_to_csv env articles_dir output_dir flag w).2) p
  = fs_lookup (w_fs w) p.
Proof.
  intros Ho Hp Hkept.
  destruct (extract_data_to_csv env articles_dir output_dir flag w) as [r w'] eqn:Hrun.
  simpl. revert Hrun. unfold extract_data_to_csv.
  intros [([] & w0 & Hassert & Hrun)|(e & Hassert & ->)]%bind_inv;
    apply assert_exists_run in Hassert as ->; [|done].
  revert Hrun.
  pose proof (get_output_dir_spec articles_dir output_dir flag w) as Hspec.
  intros [(o' & w1 & Hdir & Hrun)|(e & Hdir & ->)]%bind_inv;
    rewrite Hdir in Hspec; last first.
  { destruct Hspec as [(_ & _ & _ & ->)|(o' & q & d & Ho' & _ & _ & _ & _ & Hkeep)];
      [done|].
    assert (o' = o) as -> by congruence. by apply Hkeep. }
  destruct Hspec as (Ho' & Hfree & Hfs1).
  assert (o' = o) as -> by congruence.
  assert (fs_lookup (w_fs w1) p = fs_lookup (w_fs w) p) as Hframe1.
  { rewrite Hfs1. case_decide as Hpre; [|done]. destruct Hpre as [Hne Hpre].
    destruct Hkept as [[[|d] Hn]|]; [by rewrite Hn|by apply Hfree in Hn|done]. }
  revert Hrun.
  intros [([] & w2 & Hlog & Hrun)|(e & Hlog & ->)]%bind_inv; [|done].
  injection Hlog as <-. revert Hrun.
  intros [(n & w2 & Hscope & Hrun)|(e & Hscope & ->)]%bind_inv;
    apply streaming_scope_events in Hscope as (_ & _ & _ & _ & _ & _ & _ & Hfs2);
    specialize (Hfs2 p (writer_files_are_output_files env o p Hp));
    simpl in Hfs2; [|congruence].
  revert Hrun.
  intros [([] & w3 & Htext & Hrun)|(e & Htext & ->)]%bind_inv;
    apply write_text_run in Htext; subst; [|congruence].
  injection Hrun as <- <-. simpl. rewrite fs_lookup_write_ne; [congruence|].
  intros <-. apply Hp. unfold output_files. set_solver.
Qed.

(** X10 on the small corpus: an article file is as it was after the
    run. *)
Lemma nothing_else_is_written_witness :
  let o := ["data"; "subset_allArticles_extractedData"] in
  let p := ["data"; "articles"; "000"; "pmcid_1.xml"] in
  resolved_output_dir ex_articles_dir None false = Some o ∧
  (p ∉ output_files o) ∧
  is_Some (fs_lookup (w_fs ex_world) p) ∧
  fs_lookup (w_fs (extract_data_to_csv ex_env ex_articles_dir None false ex_world).2) p
  = fs_lookup (w_fs ex_world) p.
Proof.
  intros o p.
  assert (p ∉ output_files o) as Hp by by_vm_decide.
  assert (is_Some (fs_lookup (w_fs ex_world) p)) as Hsome by by_vm_decide.
  split_and!; [reflexivity|exact Hp|exact Hsome|].
  exact (nothing_else_is_written ex_env ex_articles_dir None false ex_world o p
           eq_refl Hp (or_introl Hsome)).
Defined.

(** X11. When [extract_data_to_csv] returns, and the output directory is
    not inside the corpus root (nor the corpus root one of the output
    files), then the records that were handed to the writers are the
    records of the article files of the corpus that parse, in the order of
    the traversal, and [n_articles] in [info.json] is their number. *)
Theorem run_counts_the_articles_that_parse env articles_dir output_dir flag w o code w' :
  extract_data_to_csv env articles_dir output_dir flag w = (Ok (o, code), w') →
  NoDup (w_fs w).*1 →
  ¬ (articles_dir `prefix_of` o) →
  articles_dir ∉ output_files o →
  ∃ recs evs,
    records_of env
      (omap (parse_file env (w_fs w)) (article_files (w_fs w) articles_dir))
    = Ok recs ∧
    w_trace w' = w_trace w ++ evs ∧
    write_calls evs = recs ≫= fan_out ∧
    fs_lookup (w_fs w') (Path.joinpath o "info.json")
    = Some (NFile (JsonText (JObject [("n_articles", Z.of_nat (length recs))]))).
Proof.
  intros (o' & w1 & w5 & n & w6 & [= <- ->] & Hdir & Htr5 & Hfs5 & Hnodup5 & Hbody
          & Htr' & Hinfo)%completed_run_inv Hnodup Houtside Hroot.
  pose proof (get_output_dir_NoDup articles_dir output_dir flag w Hnodup) as Hnodup1.
  pose proof (get_output_dir_spec articles_dir output_dir flag w) as Hspec.
  destruct (get_output_dir_trace articles_dir output_dir flag w)
    as (mkdirs & Htr1 & Hmkdirs).
  rewrite Hdir in Hnodup1, Hspec, Htr1. simpl in Hnodup1, Htr1.
  destruct Hspec as (_ & _ & Hfs1).
  destruct (article_files_below env (w_fs w) (w_fs w5) articles_dir)
    as [Hfiles Hparse]; [done|by apply Hnodup5|..].
  { intros p Hp. rewrite Hfs5, Hfs1.
    - rewrite decide_False; [done|]. intros [_ Hpre]. apply Houtside. by etrans.
    - intros Hin. apply (writer_files_are_output_files env o p); [|done].
      unfold output_files. rewrite !elem_of_cons, elem_of_nil.
      unfold output_files in Hroot. rewrite !elem_of_cons, elem_of_nil in Hroot.
      intros [->|[->|[->|[->|[]]]]]; destruct Hp as [k Hk];
        (destruct k as [|c k];
         [rewrite app_nil_r in Hk; subst articles_dir; tauto|]);
        apply Houtside;
        (destruct (exists_last (l := c :: k)) as (k' & c' & Hlast); [done|]);
        rewrite Hlast, app_assoc in Hk; apply app_inj_tail in Hk as [-> _];
        by exists k'. }
  apply extract_data_handed_over in Hbody
    as (recs & Hrecs & _ & -> & loop & Htr6 & Hcalls).
  rewrite Hfiles in Hrecs.
  rewrite (list_omap_ext _ (parse_file env (w_fs w)) _
             (article_files (w_fs w) articles_dir)) in Hrecs; last first.
  { apply Forall2_same_length_lookup. split; [done|].
    intros i p q Hp Hq. simplify_eq. apply Hparse. by eapply list_elem_of_lookup_2. }
  exists recs. eexists. split_and!; [done| | |done].
  - rewrite Htr', Htr6, Htr5, Htr1, <-!app_assoc. reflexivity.
  - rewrite !write_calls_app, Hcalls.
    rewrite (write_calls_none mkdirs); [simpl; by rewrite app_nil_r|].
    eapply Forall_impl; [done|]. intros []; simpl; tauto.
Qed.

(** X11 on the small corpus: three of the four article files parse. *)
Lemma run_counts_the_articles_that_parse_witness :
  let run := extract_data_to_csv ex_env ex_articles_dir None false ex_world in
  let o := ["data"; "subset_allArticles_extractedData"] in
  run = (Ok (o, 0%Z), run.2) ∧
  NoDup (w_fs ex_world).*1 ∧
  ¬ (ex_articles_dir `prefix_of` o) ∧
  (ex_articles_dir ∉ output_files o) ∧
  length (omap (parse_file ex_env (w_fs ex_world))
            (article_files (w_fs ex_world) ex_articles_dir)) = 3%nat ∧
  ∃ recs evs,
    records_of ex_env
      (omap (parse_file ex_env (w_fs ex_world))
         (article_files (w_fs ex_world) ex_articles_dir))
    = Ok recs ∧
    w_trace run.2 = w_trace ex_world ++ evs ∧
    write_calls evs = recs ≫= fan_out ∧
    fs_lookup (w_fs run.2) (Path.joinpath o "info.json")
    = Some (NFile (JsonText (JObject [("n_articles", Z.of_nat (length recs))]))).
Proof.
  intros run o.
  assert (run = (Ok (o, 0%Z), run.2)) as Hrun by (vm_compute; reflexivity).
  assert (NoDup (w_fs ex_world).*1) as Hnodup by by_vm_decide.
  assert (¬ (ex_articles_dir `prefix_of` o)) as Houtside.
  { intros [k Hk]. discriminate Hk. }
  assert (ex_articles_dir ∉ output_files o) as Hroot by by_vm_decide.
  split_and!; [exact Hrun|exact Hnodup|exact Houtside|exact Hroot|
               vm_compute; reflexivity|].
  exact (run_counts_the_articles_that_parse ex_env ex_articles_dir None false
           ex_world o 0%Z run.2 Hrun Hnodup Houtside Hroot).
Defined.
